(** * Charm reading: manifest, format, series and archive handling

    A shallow embedding of the Go package [charm] (charm.go, manifest.go,
    charmarchive.go) and of its sub-package [resource] (meta.go), with the
    properties of the format gate, the manifest parser, the series
    reconciliation, the resource validation and the archive reader.

    Go values are modelled as follows.
    - A slice is [option (list A)]: [None] is the nil slice, [Some []] the
      empty non-nil slice; [len] and [range] do not tell them apart,
      [== nil] does.
    - A pointer that may be nil is an [option].
    - An [interface{}] holding decoded YAML is a [value].
    - A function that can fault at run time (nil dereference, failed type
      assertion) returns an [outcome]; one that returns [(T, error)]
      returns a pair whose second component is [option error].
    - Collaborators that live outside the package (the channel grammar,
      the YAML decoder, the document parsers, the resource type table)
      are fields of type classes, so every theorem holds for any
      implementation of them. *)

From Stdlib Require Import ZArith.
From stdpp Require Import base option strings pretty list gmap.

#[local] Set Warnings "-register-all".

(** ** Go runtime values *)

Module Go.

(** [[]T]: nil or a backing list. *)
Definition slice (A : Type) : Type := option (list A).

Definition elems {A} (s : slice A) : list A := default [] s.

Definition len {A} (s : slice A) : nat := length (elems s).

(** [append(s, x)] always yields a non-nil slice. *)
Definition append {A} (s : slice A) (x : A) : slice A := Some (elems s ++ [x]).

(** Dynamic values behind [interface{}]. [VMapI] is
    [map[interface{}]interface{}] (what the YAML decoder builds),
    [VMapS] is [map[string]interface{}], [VList] is [[]interface{}]. *)
Inductive value : Type :=
| VNil
| VString (s : string)
| VInt (n : Z)
| VBool (b : bool)
| VList (l : list value)
| VMapS (m : list (string * value))
| VMapI (m : list (value * value)).

(** [m[k]] on a [map[string]interface{}], with the comma-ok flag as
    [option]. *)
Fixpoint lookupS (k : string) (m : list (string * value)) : option value :=
  match m with
  | [] => None
  | (k', v) :: m' => if String.eqb k' k then Some v else lookupS k m'
  end.

(** [m[k]] on a [map[interface{}]interface{}] for a string key [k]. *)
Fixpoint lookupI (k : string) (m : list (value * value)) : option value :=
  match m with
  | [] => None
  | (VString k', v) :: m' => if String.eqb k' k then Some v else lookupI k m'
  | _ :: m' => lookupI k m'
  end.

(** Run-time faults. *)
Inductive panic : Type :=
| nilDereference
| typeAssertion.

Inductive outcome (A : Type) : Type :=
| Return (a : A)
| Panic (p : panic).
Arguments Return {A} a.
Arguments Panic {A} p.

Definition bind {A B} (o : outcome A) (k : A -> outcome B) : outcome B :=
  match o with
  | Return a => k a
  | Panic p => Panic p
  end.

(** [v.(string)] *)
Definition assertString (v : value) : outcome string :=
  match v with
  | VString s => Return s
  | _ => Panic typeAssertion
  end.

(** [v.(map[string]interface{})] *)
Definition assertMapS (v : value) : outcome (list (string * value)) :=
  match v with
  | VMapS m => Return m
  | _ => Panic typeAssertion
  end.

(** [v.([]interface{})], never taken with the comma-ok form here. *)
Definition assertList (v : value) : outcome (list value) :=
  match v with
  | VList l => Return l
  | _ => Panic typeAssertion
  end.

(** The double quote character, for messages built with [%q]. *)
Definition dquote : string := String (Ascii.ascii_of_nat 34) EmptyString.

(** [%q] of a string without characters that need escaping. *)
Definition quote (s : string) : string := dquote +:+ s +:+ dquote.

(** [strings.Contains(s, substr)] *)
Fixpoint Contains (s substr : string) : bool :=
  if String.prefix substr s then true
  else match s with
       | EmptyString => false
       | String _ s' => Contains s' substr
       end.

(** [strings.Join(elems, sep)] *)
Fixpoint Join (l : list string) (sep : string) : string :=
  match l with
  | [] => ""
  | [x] => x
  | x :: l' => x +:+ sep +:+ Join l' sep
  end.

(** ** Errors

    The error values the package builds, and the wrappers of
    [github.com/juju/errors]. *)
Inductive error : Type :=
| errorString (msg : string)
    (* errors.New, fmt.Errorf, errors.Errorf *)
| notValid (msg : string)
    (* errors.NewNotValid(nil, msg) *)
| annotated (msg : string) (cause : error)
    (* errors.Annotatef(cause, msg) with a non-nil cause *)
| traced (cause : error)
    (* errors.Trace(cause) with a non-nil cause *)
| noCharmArchiveFile (path : string)
| unsupportedSeriesError (requestedSeries : string) (supportedSeries : slice string)
| schemaError (want : string) (path : list string)
    (* a coercion failure of github.com/juju/schema *)
| foreign (descr : string).
    (* an error produced by a collaborator: I/O, YAML syntax, ... *)

#[export] Instance error_eq_dec : EqDecision error.
Proof. solve_decision. Defined.

(** [errors.Annotatef]: a nil error stays nil. *)
Definition Annotatef (err : option error) (msg : string) : option error :=
  annotated msg <$> err.

(** [errors.Trace]: a nil error stays nil. *)
Definition Trace (err : option error) : option error :=
  traced <$> err.

(** The [Error()] method. *)
Fixpoint Error (e : error) : string :=
  match e with
  | errorString msg => msg
  | notValid msg => msg
  | annotated msg cause => msg +:+ ": " +:+ Error cause
  | traced cause => Error cause
  | noCharmArchiveFile path => "archive file " +:+ quote path +:+ " not found"
  | unsupportedSeriesError requested supported =>
      "series " +:+ quote requested
      +:+ " not supported by charm, supported series are: "
      +:+ Join (elems supported) ","
  | schemaError want path => String.concat "" path +:+ "expected " +:+ want
  | foreign descr => descr
  end.

End Go.

Import Go.

#[export] Instance outcome_bind : MBind outcome := fun A B k o => Go.bind o k.
#[export] Instance outcome_ret : MRet outcome := fun A a => Return a.

(** ** Package [resource]: meta.go *)

Module resource.

(** The resource type table ([Type], its zero value, [TypeFile],
    [ParseType], [Type.Validate], [Type.String]) is declared in a file
    of the package that is not part of this development; it is taken as
    a parameter. *)
Class TypeTable : Type := {
  Ty : Type;
  Ty_eq_dec :: EqDecision Ty;
  typeUnknown : Ty;                          (* var typeUnknown Type *)
  TypeFile : Ty;
  ParseType : string -> Ty * option error;
  Type_Validate : Ty -> option error;
  Type_String : Ty -> string;
}.

Section Meta.
Context `{TypeTable}.

Record Meta : Type := {
  Name : string;
  Type_ : Ty;
  Path : string;
  Comment : string;
}.

Definition setType (meta : Meta) (t : Ty) : Meta :=
  {| Name := Name meta; Type_ := t; Path := Path meta; Comment := Comment meta |}.

Definition setPath (meta : Meta) (p : string) : Meta :=
  {| Name := Name meta; Type_ := Type_ meta; Path := p; Comment := Comment meta |}.

Definition setComment (meta : Meta) (c : string) : Meta :=
  {| Name := Name meta; Type_ := Type_ meta; Path := Path meta; Comment := c |}.

(** [rMap[key]]: the zero value (nil) when the key is missing. *)
Definition index (rMap : list (string * value)) (key : string) : value :=
  default VNil (lookupS key rMap).

Definition ParseMeta (name : string) (data : value) : outcome (Meta * option error) :=
  let meta := {| Name := name; Type_ := typeUnknown; Path := ""; Comment := "" |} in
  match data with
  | VNil => Return (meta, None)
  | _ =>
      rMap ← assertMapS data;
      r ← match index rMap "type" with
          | VNil => Return (meta, None)
          | val => s ← assertString val;
                   let '(t, err) := ParseType s in
                   Return (setType meta t, err)
          end;
      match r with
      | (meta, Some err) => Return (meta, Trace (Some err))
      | (meta, None) =>
          meta ← match index rMap "filename" with
                  | VNil => Return meta
                  | val => s ← assertString val; Return (setPath meta s)
                  end;
          meta ← match index rMap "comment" with
                  | VNil => Return meta
                  | val => s ← assertString val; Return (setComment meta s)
                  end;
          Return (meta, None)
      end
  end.

(** What a field read with [val.(string)] may hold without a fault:
    nothing, or a string. *)
Definition stringOrNil (v : value) : bool :=
  match v with
  | VNil | VString _ => true
  | _ => false
  end.

(** The "type" field is missing, or is a string [ParseType] accepts. *)
Definition typeAccepted (rMap : list (string * value)) : Prop :=
  index rMap "type" = VNil \/
  exists s, index rMap "type" = VString s /\ snd (ParseType s) = None.

Definition msgMissingName : string := "resource missing name".
Definition msgMissingType : string := "resource missing type".
Definition msgInvalidType (t : Ty) (err : error) : string :=
  "invalid resource type " +:+ Type_String t +:+ ": " +:+ Error err.
Definition msgMissingFilename : string := "resource missing filename".
Definition msgSeparator (path : string) : string :=
  "filename cannot contain " +:+ quote "/" +:+ " (got " +:+ quote path +:+ ")".

Definition Validate (meta : Meta) : option error :=
  if decide (Name meta = "") then Some (notValid msgMissingName)
  else if decide (Type_ meta = typeUnknown) then Some (notValid msgMissingType)
  else match Type_Validate (Type_ meta) with
       | Some err => Some (notValid (msgInvalidType (Type_ meta) err))
       | None =>
           if decide (Path meta = "") then Some (notValid msgMissingFilename)
           else if decide (Type_ meta = TypeFile) then
                  if Contains (Path meta) "/"
                  then Some (notValid (msgSeparator (Path meta)))
                  else None
                else None
       end.

End Meta.

End resource.


(** ** The checkers of [github.com/juju/schema] used by [baseSchema] *)

Module schema.

(** Modelled from the spec: the package [github.com/juju/schema] is a
    dependency whose source is not part of this development. The
    fragment below covers the checkers [baseSchema] is built from, with
    the contract the specification gives them: the "bases" key maps to a
    sequence, every element must coerce to a record with optional "name"
    and "channel" string fields, and "name" is restricted to a closed
    enumeration of constants. [Const] succeeds only on a value equal to
    its constant, [OneOf] returns the result of the first option that
    succeeds, [String] accepts strings, [List] coerces every element of a
    slice and fails on anything that is not a slice (nil included),
    [FieldMap] requires a map, coerces the listed fields and leaves out a
    missing field whose default is [Omit]. *)
Inductive Checker : Type :=
| Const (value : string)
| OneOf (options : list Checker)
| String_
| List (elem : Checker)
| FieldMap (fields : list (string * Checker)) (omitted : list string).

(** The key lookup of [FieldMap] on either kind of map; [None] when the
    value is not a map. *)
Definition mapIndex (v : value) : option (string -> option value) :=
  match v with
  | VMapS m => Some (fun k => lookupS k m)
  | VMapI m => Some (fun k => lookupI k m)
  | _ => None
  end.

(** Modelled from the spec: the loop of [OneOf] in the schema package,
    which gives the first option that succeeds. *)
Definition OneOf_range {C : Type} (coerce : C -> value * option error)
    (path : list string) : list C -> value * option error :=
  fix first (options : list C) : value * option error :=
    match options with
    | [] => (VNil, Some (schemaError "" path))
    | o :: options' =>
        match coerce o with
        | (newv, None) => (newv, None)
        | (_, Some _) => first options'
        end
    end.

(** Modelled from the spec: the loop of [List] in the schema package.
    Element [i] is coerced under the path extended with its index; [out]
    collects the results. *)
Definition List_range (coerce : value -> list string -> value * option error)
    (path : list string) : list value -> nat -> list value -> value * option error :=
  fix each (l : list value) (i : nat) (out : list value) : value * option error :=
    match l with
    | [] => (VList out, None)
    | x :: l' =>
        match coerce x (path ++ ["["; pretty i; "]"]) with
        | (e, None) => each l' (S i) (out ++ [e])
        | (_, Some err) => (VNil, Some err)
        end
    end.

(** Modelled from the spec: the loop of [FieldMap] in the schema package
    over the fields; [get] looks a key up in the input map, [out] is the
    output map. *)
Definition FieldMap_range {C : Type}
    (coerce : C -> value -> list string -> value * option error)
    (get : string -> option value) (omitted : list string) (path : list string)
  : list (string * C) -> list (string * value) -> value * option error :=
  fix each (fields : list (string * C)) (out : list (string * value))
    : value * option error :=
    match fields with
    | [] => (VMapS out, None)
    | (k, checker) :: fields' =>
        match get k with
        | None =>
            if bool_decide (k ∈ omitted) then each fields' out
            else match coerce checker VNil (path ++ ["."; k]) with
                 | (newv, None) => each fields' (out ++ [(k, newv)])
                 | (_, Some err) => (VNil, Some err)
                 end
        | Some value =>
            match coerce checker value (path ++ ["."; k]) with
            | (newv, None) => each fields' (out ++ [(k, newv)])
            | (_, Some err) => (VNil, Some err)
            end
        end
    end.

(** Modelled from the spec: [c.Coerce(v, path)] of the schema package.
    [FieldMap] visits its fields in the order they are listed; Go leaves
    that order unspecified, which can only change which of several
    errors is reported. *)
Fixpoint Coerce (c : Checker) (v : value) (path : list string) {struct c}
  : value * option error :=
  match c with
  | Const k =>
      match v with
      | VString s => if String.eqb s k then (v, None)
                     else (VNil, Some (schemaError (quote k) path))
      | _ => (VNil, Some (schemaError (quote k) path))
      end
  | OneOf options => OneOf_range (fun o => Coerce o v path) path options
  | String_ =>
      match v with
      | VString s => (VString s, None)
      | _ => (VNil, Some (schemaError "string" path))
      end
  | List elem =>
      match v with
      | VList l => List_range (Coerce elem) path l 0 []
      | _ => (VNil, Some (schemaError "list" path))
      end
  | FieldMap fields omitted =>
      match mapIndex v with
      | None => (VNil, Some (schemaError "map" path))
      | Some get => FieldMap_range Coerce get omitted path fields []
      end
  end.

End schema.

(** ** Package [github.com/juju/systems] *)

Module systems.

(** The channel grammar ([channel.Channel], [channel.Parse]) is a
    collaborator. *)
Class ChannelGrammar : Type := {
  Channel : Type;
  Channel_zero : Channel;
  channel_Parse : string -> Channel * option error;
}.

Record Base `{ChannelGrammar} : Type := {
  Name : string;
  Channel_ : Channel;
}.

(** The platform names and the methods of [Base] are collaborators. *)
Class Platforms `{ChannelGrammar} : Type := {
  Ubuntu : string;
  Windows : string;
  CentOS : string;
  OpenSUSE : string;
  GenericLinux : string;
  OSX : string;
  Base_Validate : Base -> option error;
  Base_String : Base -> string;
}.

End systems.

(** ** Readers and the YAML decoder *)

Module io.

(** An [io.Reader] as what [ioutil.ReadAll] gets out of it. *)
Record Reader : Type := {
  data : string;
  readErr : option error;
}.

Definition ReadAll (r : Reader) : string * option error := (data r, readErr r).

End io.

Module yaml.

(** What the decoder makes of a byte sequence: a syntax error, nothing at
    all (the target of [Unmarshal] is left as it was), or a node. *)
Inductive document : Type :=
| syntaxError (err : error)
| nothing
| node (v : value).

(** The parser of [gopkg.in/yaml.v2] is a collaborator. *)
Class Decoder : Type := {
  parse : string -> document;
}.

(** Modelled from the spec: the decoder is a library with the usual
    decode contract. This is the callback an [UnmarshalYAML] method
    receives, applied to a [map[interface{}]interface{}] target: a
    mapping node fills the target, any other node is a type error. *)
Definition decodeInto (v : value) (raw : list (value * value))
  : list (value * value) * option error :=
  match v with
  | VMapI m => (m ++ raw, None)
  | _ => (raw, Some (foreign "cannot unmarshal into map"))
  end.

End yaml.

(** ** Package [charm]: manifest.go

    The sources hold two copies of manifest.go; they differ in
    [NewManifest], present in one only, and in how [parseBases] declares
    its locals, which makes no difference to what it computes. *)

Module charm.

Import systems.

Section Manifest.
Context `{Platforms} `{yaml.Decoder}.

Record Manifest : Type := {
  Bases : slice Base;
}.

Definition NewManifest : Manifest := {| Bases := None |}.

(** The loop of [Manifest.Validate]. *)
Fixpoint Validate_range (bases : list Base) : option error :=
  match bases with
  | [] => None
  | b :: bases' =>
      match Base_Validate b with
      | Some _ => Some (errorString "invalid base: empty file")
      | None => Validate_range bases'
      end
  end.

Definition Validate (m : Manifest) : option error :=
  Validate_range (elems (Bases m)).

Definition baseSchema : schema.Checker :=
  schema.FieldMap
    [("name", schema.OneOf [schema.Const Ubuntu;
                            schema.Const Windows;
                            schema.Const CentOS;
                            schema.Const OpenSUSE;
                            schema.Const GenericLinux;
                            schema.Const OSX]);
     ("channel", schema.String_)]
    ["name"; "channel"].

(** The values the "name" field of a base may hold. *)
Definition platformNames : list value :=
  [VString Ubuntu; VString Windows; VString CentOS;
   VString OpenSUSE; VString GenericLinux; VString OSX].

(** An element of the "bases" sequence that is a record whose "name" is
    outside the enumeration. *)
Definition hasUnknownName (e : value) : Prop :=
  exists get v, schema.mapIndex e = Some get /\ get "name" = Some v /\
                v ∉ platformNames.

(** The loop of [parseBases], with [res] as accumulated so far. *)
Fixpoint parseBases_range (input : list value) (res : slice Base)
  : outcome (slice Base * option error) :=
  match input with
  | [] => Return (res, None)
  | v :: input' =>
      let base := {| Name := ""; Channel_ := Channel_zero |} in
      baseMap ← assertMapS v;
      base ← match lookupS "name" baseMap with
              | Some value =>
                  s ← assertString value;
                  Return {| Name := s; Channel_ := Channel_ base |}
              | None => Return base
              end;
      r ← match lookupS "channel" baseMap with
          | Some value =>
              s ← assertString value;
              let '(c, err) := channel_Parse s in
              Return ({| Name := Name base; Channel_ := c |},
                      Annotatef err ("parsing channel " +:+ quote s))
          | None => Return (base, None)
          end;
      match r with
      | (_, Some err) => Return (None, Some err)
      | (base, None) =>
          match Base_Validate base with
          | Some err => Return (None, Trace (Some err))
          | None => parseBases_range input' (append res base)
          end
      end
  end.

Definition parseBases (input : value) : outcome (slice Base * option error) :=
  match input with
  | VNil => Return (None, None)
  | _ => l ← assertList input; parseBases_range l None
  end.

(** [m.UnmarshalYAML(f)]: the manifest the receiver holds afterwards and
    the error. [f] is the decoding callback applied to [&raw]. *)
Definition UnmarshalYAML (m : Manifest)
    (f : list (value * value) -> list (value * value) * option error)
  : outcome (Manifest * option error) :=
  let '(raw, err) := f [] in
  match err with
  | Some err => Return (m, Some err)
  | None =>
      let '(v, err) :=
        schema.Coerce (schema.List baseSchema) (default VNil (lookupI "bases" raw)) [] in
      match err with
      | Some _ => Return (m, Annotatef err "coerce")
      | None =>
          match v with
          | VList newV =>
              '(bases, err) ← parseBases (VList newV);
              match err with
              | Some err => Return (m, Some err)
              | None => Return ({| Bases := bases |}, None)
              end
          | _ => Return (m, Annotatef err "converting")
          end
      end
  end.

(** Modelled from the spec: [yaml.Unmarshal(data, &manifest)] for
    [var manifest *Manifest], with the usual decode contract: the pointer
    afterwards and the error. A node makes the decoder allocate a
    manifest and call its [UnmarshalYAML]; when there is nothing to
    decode the pointer stays nil. *)
Definition Unmarshal (data : string) : outcome (option Manifest * option error) :=
  match yaml.parse data with
  | yaml.syntaxError err => Return (None, Some err)
  | yaml.nothing => Return (None, None)
  | yaml.node v =>
      '(m, err) ← UnmarshalYAML NewManifest (yaml.decodeInto v);
      Return (Some m, err)
  end.

Definition ReadManifest (r : io.Reader) : outcome (option Manifest * option error) :=
  let '(data, err) := io.ReadAll r in
  match err with
  | Some err => Return (None, Some err)
  | None =>
      '(manifest, uerr) ← Unmarshal data;
      match uerr with
      | Some _ => Return (None, Annotatef uerr "manifest")
      | None =>
          match manifest with
          | None => Return (None, Annotatef err "invalid base in manifest")
          | Some m => Return (Some m, None)
          end
      end
  end.

End Manifest.

(** ** Package [charm]: charm.go *)

(** Modelled from the spec: the type [Format] is declared in a file of
    the package that is not part of this development. The specification
    gives it two values, V1 (legacy) and V2. *)
Inductive Format : Type :=
| FormatV1
| FormatV2.

#[global] Instance Format_eq_dec : EqDecision Format.
Proof. solve_decision. Defined.

(** The metadata document and the sibling documents of a charm, with
    their parsers, are collaborators. [Series] is the field [Meta.Series],
    [Check] the method [Meta.Check] called through a pointer. [Fscan] is
    [fmt.Fscan] into an [int] that holds the given value. *)
Class Documents : Type := {
  Meta : Type;
  Series : Meta -> slice string;
  Check : option Meta -> Format -> outcome (option error);
  Config : Type;
  Metrics : Type;
  Actions : Type;
  LXDProfile : Type;
  ReadMeta : io.Reader -> option Meta * option error;
  ReadConfig : io.Reader -> option Config * option error;
  NewConfig : Config;
  ReadMetrics : io.Reader -> option Metrics * option error;
  ReadActionsYaml : io.Reader -> option Actions * option error;
  NewActions : Actions;
  ReadLXDProfile : io.Reader -> option LXDProfile * option error;
  NewLXDProfile : LXDProfile;
  ReadVersion : io.Reader -> string * option error;
  Fscan : io.Reader -> Z -> Z * option error;
}.

(** Reading through a pointer. *)
Definition deref {A} (p : option A) : outcome A :=
  match p with
  | Some a => Return a
  | None => Panic nilDereference
  end.

Section Charm.
Context `{Platforms} `{yaml.Decoder} `{Documents}.

(** The interface [Charm], as the results of the two methods the
    functions below call. Both are pointers. *)
Record Charm : Type := {
  Charm_Meta : option Meta;
  Charm_Manifest : option Manifest;
}.

Definition errMissingSeries : error :=
  errorString "series not specified and charm does not define any".

Definition IsMissingSeriesError (err : option error) : bool :=
  bool_decide (err = Some errMissingSeries).

Definition NewUnsupportedSeriesError (requestedSeries : string)
    (supportedSeries : slice string) : error :=
  unsupportedSeriesError requestedSeries supportedSeries.

Definition IsUnsupportedSeriesError (err : option error) : bool :=
  match err with
  | Some (unsupportedSeriesError _ _) => true
  | _ => false
  end.

(** The loop of [SeriesForCharm]: [true] when it returns from inside. *)
Fixpoint SeriesForCharm_range (requestedSeries : string) (l : list string) : bool :=
  match l with
  | [] => false
  | s :: l' => if decide (s = requestedSeries) then true
               else SeriesForCharm_range requestedSeries l'
  end.

Definition SeriesForCharm (requestedSeries : string) (supportedSeries : slice string)
  : string * option error :=
  if decide (len supportedSeries = 0) then
    if decide (requestedSeries = "") then ("", Some errMissingSeries)
    else (requestedSeries, None)
  else if decide (requestedSeries = "") then
    (default "" (elems supportedSeries !! 0), None)
  else if SeriesForCharm_range requestedSeries (elems supportedSeries) then
    (requestedSeries, None)
  else ("", Some (unsupportedSeriesError requestedSeries supportedSeries)).

(** The loop shared by the two [ComputedSeries]: the slice and the set
    after the bases [l]. *)
Fixpoint ComputedSeries_range (l : list Base)
    (seriesSlice : slice string) (seriesSet : gset string) : slice string :=
  match l with
  | [] => seriesSlice
  | base :: l' =>
      let series := Base_String base in
      if decide (series ∈ seriesSet) then
        ComputedSeries_range l' seriesSlice seriesSet
      else
        ComputedSeries_range l' (append seriesSlice series) ({[series]} ∪ seriesSet)
  end.

(** The invariant of the loop: the set holds what the slice holds. *)
Definition tracks (seriesSlice : slice string) (seriesSet : gset string) : Prop :=
  seriesSet = list_to_set (elems seriesSlice).

Definition ComputedSeries (c : Charm) : outcome (slice string) :=
  manifest ← deref (Charm_Manifest c);
  if decide (len (Bases manifest) = 0) then
    meta ← deref (Charm_Meta c);
    Return (Series meta)
  else
    Return (ComputedSeries_range (elems (Bases manifest)) None ∅).

(** The format gate of [ReadCharm], lines 166-169: V2 unless
    [len(charm.Manifest().Bases) == 0]. *)
Definition ReadCharm_format (charm : Charm) : outcome Format :=
  manifest ← deref (Charm_Manifest charm);
  Return (if decide (len (Bases manifest) = 0) then FormatV1 else FormatV2).

End Charm.

(** ** Package [charm]: charmarchive.go *)

(** *** Handles and the reading monad *)

(** What can be open: the file behind a container, and a reader on an
    entry of a container. *)
Inductive handle : Type :=
| hFile (path : string)
| hEntry (name : string).

#[global] Instance handle_eq_dec : EqDecision handle.
Proof. solve_decision. Defined.

(** How a function body ends: it falls through with a value, it executes
    [return nil, err], or it faults. *)
Inductive result (A : Type) : Type :=
| Done (a : A)
| Failed (err : error)
| Panicked (p : panic).
Arguments Done {A} a.
Arguments Failed {A} err.
Arguments Panicked {A} p.

(** A computation over the list of handles that are open. *)
Definition proc (A : Type) : Type := list handle -> result A * list handle.

#[global] Instance proc_ret : MRet proc := fun A a w => (Done a, w).

#[global] Instance proc_bind : MBind proc := fun A B k m w =>
  match m w with
  | (Done a, w') => k a w'
  | (Failed err, w') => (Failed err, w')
  | (Panicked p, w') => (Panicked p, w')
  end.

(** [return nil, err] *)
Definition fail {A} (err : error) : proc A := fun w => (Failed err, w).

(** [if err != nil { return nil, err }] *)
Definition check (err : option error) : proc unit :=
  match err with
  | Some e => fail e
  | None => mret tt
  end.

(** A call whose error the caller inspects instead of returning it. *)
Definition attempt {A} (m : proc A) : proc (error + A) := fun w =>
  match m w with
  | (Done a, w') => (Done (inr a), w')
  | (Failed err, w') => (Done (inl err), w')
  | (Panicked p, w') => (Panicked p, w')
  end.

Definition lift {A} (o : outcome A) : proc A := fun w =>
  match o with
  | Return a => (Done a, w)
  | Panic p => (Panicked p, w)
  end.

Definition opened (h : handle) : proc unit := fun w => (Done tt, h :: w).

(** Closing removes one occurrence of the handle. *)
Fixpoint release (h : handle) (w : list handle) : list handle :=
  match w with
  | [] => []
  | h' :: w' => if decide (h' = h) then w' else h' :: release h w'
  end.

Definition closed (h : handle) : proc unit := fun w => (Done tt, release h w).

(** [defer cleanup] followed by [body]: the cleanup runs however the body
    ends, a fault included. *)
Definition defer {A} (cleanup : proc unit) (body : proc A) : proc A := fun w =>
  let '(r, w') := body w in
  (r, snd (cleanup w')).

(** *** Containers *)

(** A [zip.File]: its header name and what [Open] gives. *)
Record zipFile : Type := {
  zName : string;
  zOpen : io.Reader * option error;
}.

(** The file system and the ZIP reader are collaborators. [os_Open]
    gives the error of [os.Open]; [File_Stat] the size and the error of
    [f.Stat]; [zip_NewReader] is [zip.NewReader] on a reader or on the
    file opened from a path; [os_Stat] is [os.Stat] followed by
    [IsDir]. *)
Class FileSystem : Type := {
  ReaderAt : Type;
  os_Open : string -> option error;
  File_Stat : string -> Z * option error;
  zip_NewReader : ReaderAt + string -> Z -> list zipFile * option error;
  os_Stat : string -> bool * option error;
}.

Section Archive.
Context `{Platforms} `{yaml.Decoder} `{Documents} `{FileSystem}.

(** The two implementations of the interface [zipOpener]. *)
Inductive zipOpener : Type :=
| zipPathOpener (path : string)
| zipReaderOpener (r : ReaderAt) (size : Z).

Definition newZipOpenerFromPath (path : string) : zipOpener := zipPathOpener path.

Definition newZipOpenerFromReader (r : ReaderAt) (size : Z) : zipOpener :=
  zipReaderOpener r size.

(** [Closer] is [None] for [ioutil.NopCloser]. *)
Record zipReadCloser : Type := {
  Closer : option handle;
  File : list zipFile;
}.

Definition zipReadCloser_Close (zipr : zipReadCloser) : proc unit :=
  match Closer zipr with
  | Some h => closed h
  | None => mret tt
  end.

Definition openZip (zo : zipOpener) : proc zipReadCloser :=
  match zo with
  | zipPathOpener path =>
      _ ← check (os_Open path);
      _ ← opened (hFile path);
      let '(size, err) := File_Stat path in
      match err with
      | Some err => _ ← closed (hFile path); fail err
      | None =>
          let '(r, err) := zip_NewReader (inr path) size in
          match err with
          | Some err => _ ← closed (hFile path); fail err
          | None => mret {| Closer := Some (hFile path); File := r |}
          end
      end
  | zipReaderOpener r size =>
      let '(r, err) := zip_NewReader (inl r) size in
      _ ← check err;
      mret {| Closer := None; File := r |}
  end.

(** An [io.ReadCloser] on an entry. *)
Record ReadCloser : Type := {
  rc_handle : handle;
  rc_reader : io.Reader;
}.

Definition Close (reader : ReadCloser) : proc unit := closed (rc_handle reader).

(** [fh.Open()] *)
Definition zipFile_Open (fh : zipFile) : proc ReadCloser :=
  let '(r, err) := zOpen fh in
  _ ← check err;
  _ ← opened (hEntry (zName fh));
  mret {| rc_handle := hEntry (zName fh); rc_reader := r |}.

Fixpoint zipOpenFile_range (files : list zipFile) (path : string) : proc ReadCloser :=
  match files with
  | [] => fail (noCharmArchiveFile path)
  | fh :: files' =>
      if decide (zName fh = path) then zipFile_Open fh
      else zipOpenFile_range files' path
  end.

Definition zipOpenFile (zipr : zipReadCloser) (path : string) : proc ReadCloser :=
  zipOpenFile_range (File zipr) path.

(** The type assertion of [err] to a pointer to [noCharmArchiveFile]. *)
Definition isNoCharmArchiveFile (err : error) : bool :=
  match err with
  | noCharmArchiveFile _ => true
  | _ => false
  end.

(** *** The archive *)

Record CharmArchive : Type := {
  zopen : zipOpener;
  Path : string;
  meta : option Meta;
  config : option Config;
  metrics : option Metrics;
  actions : option Actions;
  lxdProfile : option LXDProfile;
  manifest : option Manifest;
  revision : Z;
  version : string;
}.

Definition set_Path (a : CharmArchive) (x : string) : CharmArchive :=
  {| zopen := zopen a; Path := x; meta := meta a; config := config a;
     metrics := metrics a; actions := actions a; lxdProfile := lxdProfile a;
     manifest := manifest a; revision := revision a; version := version a |}.

Definition set_meta (a : CharmArchive) (x : option Meta) : CharmArchive :=
  {| zopen := zopen a; Path := Path a; meta := x; config := config a;
     metrics := metrics a; actions := actions a; lxdProfile := lxdProfile a;
     manifest := manifest a; revision := revision a; version := version a |}.

Definition set_config (a : CharmArchive) (x : option Config) : CharmArchive :=
  {| zopen := zopen a; Path := Path a; meta := meta a; config := x;
     metrics := metrics a; actions := actions a; lxdProfile := lxdProfile a;
     manifest := manifest a; revision := revision a; version := version a |}.

Definition set_metrics (a : CharmArchive) (x : option Metrics) : CharmArchive :=
  {| zopen := zopen a; Path := Path a; meta := meta a; config := config a;
     metrics := x; actions := actions a; lxdProfile := lxdProfile a;
     manifest := manifest a; revision := revision a; version := version a |}.

Definition set_actions (a : CharmArchive) (x : option Actions) : CharmArchive :=
  {| zopen := zopen a; Path := Path a; meta := meta a; config := config a;
     metrics := metrics a; actions := x; lxdProfile := lxdProfile a;
     manifest := manifest a; revision := revision a; version := version a |}.

Definition set_lxdProfile (a : CharmArchive) (x : option LXDProfile) : CharmArchive :=
  {| zopen := zopen a; Path := Path a; meta := meta a; config := config a;
     metrics := metrics a; actions := actions a; lxdProfile := x;
     manifest := manifest a; revision := revision a; version := version a |}.

Definition set_manifest (a : CharmArchive) (x : option Manifest) : CharmArchive :=
  {| zopen := zopen a; Path := Path a; meta := meta a; config := config a;
     metrics := metrics a; actions := actions a; lxdProfile := lxdProfile a;
     manifest := x; revision := revision a; version := version a |}.

Definition set_revision (a : CharmArchive) (x : Z) : CharmArchive :=
  {| zopen := zopen a; Path := Path a; meta := meta a; config := config a;
     metrics := metrics a; actions := actions a; lxdProfile := lxdProfile a;
     manifest := manifest a; revision := x; version := version a |}.

Definition set_version (a : CharmArchive) (x : string) : CharmArchive :=
  {| zopen := zopen a; Path := Path a; meta := meta a; config := config a;
     metrics := metrics a; actions := actions a; lxdProfile := lxdProfile a;
     manifest := manifest a; revision := revision a; version := x |}.

(** [a.Format()]: the field [Bases] is read through [a.manifest]. *)
Definition CharmArchive_Format (a : CharmArchive) : outcome Format :=
  m ← deref (manifest a);
  match Bases m with
  | Some _ => Return FormatV2
  | None => Return FormatV1
  end.

Definition CharmArchive_ComputedSeries (a : CharmArchive) : outcome (slice string) :=
  format ← CharmArchive_Format a;
  if decide (format = FormatV1) then
    m ← deref (meta a);
    Return (Series m)
  else
    m ← deref (manifest a);
    Return (ComputedSeries_range (elems (Bases m)) None ∅).

Definition SetRevision (a : CharmArchive) (revision : Z) : CharmArchive :=
  set_revision a revision.

Definition BasesManifest (a : CharmArchive) : option Manifest := manifest a.

Definition getActions (open : string -> proc ReadCloser) (isNotFound : error -> bool)
  : proc (option Actions) :=
  r ← attempt (open "actions.yaml");
  match r with
  | inr reader =>
      defer (Close reader)
        (let '(actions, err) := ReadActionsYaml (rc_reader reader) in
         _ ← check err;
         mret actions)
  | inl err =>
      if isNotFound err then mret (Some NewActions) else fail err
  end.

(** The blocks of [readCharmArchive], one per entry, each taking the
    archive built so far and giving it back updated. *)

(** "metadata.yaml", lines 76-84. *)
Definition readCharmArchive_metadata (zipr : zipReadCloser) (b : CharmArchive)
  : proc CharmArchive :=
  reader ← zipOpenFile zipr "metadata.yaml";
  let '(m, err) := ReadMeta (rc_reader reader) in
  let b := set_meta b m in
  _ ← Close reader;
  _ ← check err;
  mret b.

(** "manifest.yaml", lines 86-98. *)
Definition readCharmArchive_manifest (zipr : zipReadCloser) (b : CharmArchive)
  : proc CharmArchive :=
  format ← lift (CharmArchive_Format b);
  if decide (format ≠ FormatV1) then
    r ← attempt (zipOpenFile zipr "manifest.yaml");
    match r with
    | inl err => fail (annotated "opening manifest file" err)
    | inr reader =>
        '(m, err) ← lift (ReadManifest (rc_reader reader));
        let b := set_manifest b m in
        _ ← Close reader;
        _ ← check (Trace err);
        mret b
    end
  else mret b.

(** "config.yaml", lines 100-111. *)
Definition readCharmArchive_config (zipr : zipReadCloser) (b : CharmArchive)
  : proc CharmArchive :=
  r ← attempt (zipOpenFile zipr "config.yaml");
  match r with
  | inl err =>
      if isNoCharmArchiveFile err then mret (set_config b (Some NewConfig))
      else fail err
  | inr reader =>
      let '(c, err) := ReadConfig (rc_reader reader) in
      let b := set_config b c in
      _ ← Close reader;
      _ ← check err;
      mret b
  end.

(** "metrics.yaml", lines 113-122. *)
Definition readCharmArchive_metrics (zipr : zipReadCloser) (b : CharmArchive)
  : proc CharmArchive :=
  r ← attempt (zipOpenFile zipr "metrics.yaml");
  match r with
  | inr reader =>
      let '(m, err) := ReadMetrics (rc_reader reader) in
      let b := set_metrics b m in
      _ ← Close reader;
      _ ← check err;
      mret b
  | inl err =>
      if negb (isNoCharmArchiveFile err) then fail err else mret b
  end.

(** "actions.yaml", lines 124-134. *)
Definition readCharmArchive_actions (zipr : zipReadCloser) (b : CharmArchive)
  : proc CharmArchive :=
  actions ← getActions (fun file => zipOpenFile zipr file) isNoCharmArchiveFile;
  mret (set_actions b actions).

(** "revision", lines 136-146. *)
Definition readCharmArchive_revision (zipr : zipReadCloser) (b : CharmArchive)
  : proc CharmArchive :=
  r ← attempt (zipOpenFile zipr "revision");
  match r with
  | inl err =>
      if negb (isNoCharmArchiveFile err) then fail err else mret b
  | inr reader =>
      let '(n, err) := Fscan (rc_reader reader) (revision b) in
      match err with
      | Some _ => fail (errorString "invalid revision file")
      | None => mret (set_revision b n)
      end
  end.

(** "lxd-profile.yaml", lines 148-159. *)
Definition readCharmArchive_lxdProfile (zipr : zipReadCloser) (b : CharmArchive)
  : proc CharmArchive :=
  r ← attempt (zipOpenFile zipr "lxd-profile.yaml");
  match r with
  | inl err =>
      if isNoCharmArchiveFile err then mret (set_lxdProfile b (Some NewLXDProfile))
      else fail err
  | inr reader =>
      let '(p, err) := ReadLXDProfile (rc_reader reader) in
      let b := set_lxdProfile b p in
      _ ← Close reader;
      _ ← check err;
      mret b
  end.

(** "version", lines 161-172. *)
Definition readCharmArchive_version (zipr : zipReadCloser) (b : CharmArchive)
  : proc CharmArchive :=
  r ← attempt (zipOpenFile zipr "version");
  match r with
  | inl err =>
      if negb (isNoCharmArchiveFile err) then fail err else mret b
  | inr reader =>
      let '(v, err) := ReadVersion (rc_reader reader) in
      let b := set_version b v in
      _ ← Close reader;
      _ ← check err;
      mret b
  end.

(** Lines 113-174: what follows the "config.yaml" block. *)
Definition readCharmArchive_after_config (zipr : zipReadCloser) (b : CharmArchive)
  : proc CharmArchive :=
  b ← readCharmArchive_metrics zipr b;
  b ← readCharmArchive_actions zipr b;
  b ← readCharmArchive_revision zipr b;
  b ← readCharmArchive_lxdProfile zipr b;
  b ← readCharmArchive_version zipr b;
  mret b.

(** Lines 100-174: the optional entries, in the order of the source. *)
Definition readCharmArchive_optional (zipr : zipReadCloser) (b : CharmArchive)
  : proc CharmArchive :=
  b ← readCharmArchive_config zipr b;
  readCharmArchive_after_config zipr b.

(** [&CharmArchive{zopen: zopen}] *)
Definition CharmArchive_zero (zopen : zipOpener) : CharmArchive :=
  {| zopen := zopen; Path := ""; meta := None; config := None;
     metrics := None; actions := None; lxdProfile := None;
     manifest := None; revision := 0; version := "" |}.

Definition readCharmArchive (zopen : zipOpener) : proc CharmArchive :=
  let b := CharmArchive_zero zopen in
  zipr ← openZip zopen;
  defer (zipReadCloser_Close zipr)
    (b ← readCharmArchive_metadata zipr b;
     b ← readCharmArchive_manifest zipr b;
     readCharmArchive_optional zipr b).

Definition ReadCharmArchive (path : string) : proc CharmArchive :=
  a ← readCharmArchive (newZipOpenerFromPath path);
  mret (set_Path a path).

Definition ReadCharmArchiveFromReader (r : ReaderAt) (size : Z) : proc CharmArchive :=
  readCharmArchive (newZipOpenerFromReader r size).

(** *** charm.go: the top-level read *)

(** A [CharmArchive] seen through the interface [Charm], as the
    assignment [charm, err = ReadCharmArchive(path)] of [ReadCharm] sees
    it. [Meta()] gives the field [meta]. The interface of charm.go asks
    for a method [Manifest()] that returns a pointer to a [Manifest]; on
    an archive the method of that name returns the inventory, and the
    field [manifest] is returned by [BasesManifest]. What the interface
    method gives on an archive is therefore not fixed by these sources:
    it is the parameter [Charm_Manifest_of]. *)
Variable Charm_Manifest_of : CharmArchive -> option Manifest.

Definition CharmArchive_Charm (a : CharmArchive) : Charm :=
  {| Charm_Meta := meta a; Charm_Manifest := Charm_Manifest_of a |}.

(** The directory reader is a collaborator. *)
Variable ReadCharmDir : string -> proc Charm.

(** [ReadCharm] gives back the charm together with the result of
    [Check], so its result is a pair. *)
Definition ReadCharm (path : string) : proc (option Charm * option error) :=
  let '(isDir, err) := os_Stat path in
  match err with
  | Some err => mret (None, Some err)
  | None =>
      r ← attempt (if isDir then ReadCharmDir path
                   else a ← ReadCharmArchive path; mret (CharmArchive_Charm a));
      match r with
      | inl err => mret (None, Some err)
      | inr charm =>
          format ← lift (ReadCharm_format charm);
          err ← lift (Check (Charm_Meta charm) format);
          mret (Some charm, err)
      end
  end.

End Archive.

(** *** charmarchive.go: the inventory and the expansion *)

(** [filepath.SkipDir] *)
Definition SkipDir : error := errorString "skip this directory".

(** How a call of the function built by [fixHookFunc] ends: it returns an
    error value (nil included), or it returns what [os.Chmod(path, mode)]
    returns. *)
Inductive walkStep : Type :=
| walkReturn (err : option error)
| walkChmod (path : string) (mode : Z).

(** The type of a [filepath.WalkFunc]: the path, the mode of the
    [os.FileInfo] (nil when there is none) and the error of the walk. *)
Definition WalkFunc : Type :=
  string -> option Z -> option error -> outcome walkStep.

(** The operating system, the path functions and the ZIP utilities are
    collaborators. [Hooks] is the method [Meta.Hooks] called through a
    pointer; [filepath_Walk] is given the root and the function to call;
    [File_Write], [File_Sync] and [File_Close] act on the file created
    at the path they are given. *)
Class HostOS `{Documents} : Type := {
  Hooks : option Meta -> outcome (gmap string bool);
  ziputil_Find : list zipFile -> string -> list string * option error;
  ziputil_ExtractAll : list zipFile -> string -> option error;
  filepath_Join : string -> string -> string;
  filepath_Base : string -> string;
  filepath_Walk : string -> WalkFunc -> outcome (option error);
  os_IsNotExist : error -> bool;
  os_Create : string -> option error;
  File_Write : string -> string -> option error;
  File_Sync : string -> option error;
  File_Close : string -> option error;
}.

Section Expand.
Context `{Platforms} `{yaml.Decoder} `{Documents} `{FileSystem} `{!HostOS}.

(** [os.ModeDir], the directory bit of an [os.FileMode]. *)
Definition ModeDir : Z := Z.shiftl 1 31.

(** [mode.IsDir()] *)
Definition IsDir (mode : Z) : bool := negb (Z.land mode ModeDir =? 0)%Z.

(** The owner-execute bit, written 0100 in the source. *)
Definition ownerExec : Z := 64.

(** [a.Manifest()]: the set of the paths in the archive and the error. *)
Definition CharmArchive_Manifest (a : CharmArchive) : proc (gset string * option error) :=
  r ← attempt (openZip (zopen a));
  match r with
  | inl err => mret (∅, Some err)
  | inr zipr =>
      defer (zipReadCloser_Close zipr)
        (let '(paths, err) := ziputil_Find (File zipr) "*" in
         match err with
         | Some err => mret (∅, Some err)
         | None =>
             let manifest : gset string := list_to_set paths in
             let manifest := manifest ∪ {["revision"]} in
             let manifest := manifest ∖ {["."]} in
             mret (manifest, None)
         end)
  end.

(** [fixHookFunc(hooksDir, hookNames)] applied to [path], [info] and
    [err]. *)
Definition fixHookFunc (hooksDir : string) (hookNames : gmap string bool) : WalkFunc :=
  fun path info err =>
    match err with
    | Some err => Return (walkReturn (Some err))
    | None =>
        mode ← deref info;
        if bool_decide (path <> hooksDir) && IsDir mode then
          Return (walkReturn (Some SkipDir))
        else
          let name := filepath_Base path in
          if default false (hookNames !! name) then
            if (Z.land mode ownerExec =? 0)%Z then
              Return (walkChmod path (Z.lor mode ownerExec))
            else Return (walkReturn None)
          else Return (walkReturn None)
    end.

(** [a.ExpandTo(dir)]; [Done tt] is the nil error. [strconv.Itoa] is the
    decimal rendering [pretty]. *)
Definition ExpandTo (a : CharmArchive) (dir : string) : proc unit :=
  zipr ← openZip (zopen a);
  defer (zipReadCloser_Close zipr)
    (_ ← check (ziputil_ExtractAll (File zipr) dir);
     let hooksDir := filepath_Join dir "hooks" in
     hookNames ← lift (Hooks (meta a));
     let fixHook := fixHookFunc hooksDir hookNames in
     err ← lift (filepath_Walk hooksDir fixHook);
     _ ← match err with
         | Some err => if negb (os_IsNotExist err) then fail err else mret tt
         | None => mret tt
         end;
     let revFile := hFile (filepath_Join dir "revision") in
     _ ← check (os_Create (filepath_Join dir "revision"));
     _ ← opened revFile;
     _ ← check (File_Write (filepath_Join dir "revision") (pretty (revision a)));
     _ ← check (File_Sync (filepath_Join dir "revision"));
     _ ← closed revFile;
     _ ← check (File_Close (filepath_Join dir "revision"));
     mret tt).

End Expand.

(** *** Shapes used in the statements about the manifest *)

Section Shapes.
Context `{Platforms}.

(** The base [b] is what the loop of [parseBases] builds from the
    element [v]: [v] is a record, the name of [b] is the string under
    "name" (empty when there is none), its channel is what
    [channel.Parse] gives for the string under "channel" (the zero
    channel when there is none), and [b] passed [Base.Validate]. *)
Definition builtFrom (v : value) (b : Base) : Prop :=
  exists baseMap,
    v = VMapS baseMap /\
    Name b = match lookupS "name" baseMap with
             | Some (VString s) => s
             | _ => ""
             end /\
    match lookupS "channel" baseMap with
    | Some (VString s) => channel_Parse s = (Channel_ b, None)
    | _ => Channel_ b = Channel_zero
    end /\
    Base_Validate b = None.

(** What the coercion by [baseSchema] gives: a record in which "name",
    when present, is one of the platform names and "channel", when
    present, is a string. *)
Definition coercedBase (v : value) : Prop :=
  exists out,
    v = VMapS out /\
    (lookupS "name" out = None \/
     exists s, lookupS "name" out = Some (VString s) /\ VString s ∈ platformNames) /\
    (lookupS "channel" out = None \/
     exists s, lookupS "channel" out = Some (VString s)).

(** A base without a name or with one of the platform names. *)
Definition knownName (b : Base) : Prop :=
  Name b = "" \/ VString (Name b) ∈ platformNames.

End Shapes.

Section Frames.
Context `{Platforms} `{yaml.Decoder} `{Documents} `{FileSystem}.

(** The archive [b'] has the opener, the path, the metadata and the
    manifest of [b]. *)
Definition sameSource (b b' : CharmArchive) : Prop :=
  zopen b' = zopen b /\ Path b' = Path b /\ meta b' = meta b /\
  manifest b' = manifest b.

(** The names of the entries that [readCharmArchive] treats as
    optional. *)
Definition optionalEntries : list string :=
  ["config.yaml"; "metrics.yaml"; "actions.yaml"; "revision";
   "lxd-profile.yaml"; "version"].

(** The function [f] on the archive under construction keeps the source
    of the archive and leaves the open handles as they were, or with the
    handles [extra] added. *)
Definition keepsSource (f : CharmArchive -> proc CharmArchive)
    (extra : list handle) : Prop :=
  forall b w,
    (snd (f b w) = w \/ snd (f b w) = extra ++ w) /\
    (forall b', fst (f b w) = Done b' -> sameSource b b').

End Frames.

End charm.

(** ** Sample collaborators

    Small implementations of the collaborators, used to run the
    functions on concrete inputs. *)

Module Sample.

(** Modelled from the spec: the type table of package [resource] is not
    part of this development. The specification lists the types "file"
    and "oci-image" and says the zero value is the unknown, invalid
    type. *)
#[local] Instance types : resource.TypeTable :=
  {| resource.Ty := Z;
     resource.typeUnknown := 0%Z;
     resource.TypeFile := 1%Z;
     resource.ParseType := fun s =>
       if decide (s = "file") then (1%Z, None)
       else if decide (s = "oci-image") then (2%Z, None)
       else (0%Z, Some (errorString ("unsupported resource type " +:+ quote s)));
     resource.Type_Validate := fun t =>
       if decide (t = 1%Z ∨ t = 2%Z) then None
       else Some (notValid "unknown resource type");
     resource.Type_String := fun t =>
       if decide (t = 1%Z) then "file"
       else if decide (t = 2%Z) then "oci-image" else "" |}.

(** A channel grammar that accepts every non-empty string. *)
#[local] Instance channels : systems.ChannelGrammar :=
  {| systems.Channel := string;
     systems.Channel_zero := "";
     systems.channel_Parse := fun s =>
       if decide (s = "") then ("", Some (notValid "empty channel")) else (s, None) |}.

(** Bases are rendered as name/channel and valid when named. *)
#[local] Instance platforms : @systems.Platforms channels :=
  {| systems.Ubuntu := "ubuntu";
     systems.Windows := "windows";
     systems.CentOS := "centos";
     systems.OpenSUSE := "opensuse";
     systems.GenericLinux := "genericlinux";
     systems.OSX := "osx";
     systems.Base_Validate := fun b =>
       if decide (systems.Name b = "")
       then Some (notValid "base without name") else None;
     systems.Base_String := fun b =>
       systems.Name b +:+ "/" +:+ systems.Channel_ b |}.

Definition base (name channel : string) : systems.Base :=
  {| systems.Name := name; systems.Channel_ := channel |}.

(** A decoder that knows four documents. *)
Definition docEmptyBases : value := VMapI [(VString "bases", VList [])].

Definition docUbuntu : value :=
  VMapI [(VString "bases",
          VList [VMapI [(VString "name", VString "ubuntu");
                        (VString "channel", VString "stable")]])].

Definition basePlan9 : value :=
  VMapI [(VString "name", VString "plan9"); (VString "channel", VString "stable")].

Definition basesPlan9 : list value :=
  [VMapI [(VString "name", VString "ubuntu"); (VString "channel", VString "stable")];
   basePlan9].

Definition rawPlan9 : list (value * value) := [(VString "bases", VList basesPlan9)].

Definition docPlan9 : value := VMapI rawPlan9.

#[local] Instance decoder : yaml.Decoder :=
  {| yaml.parse := fun data =>
       if decide (data = "") then yaml.nothing
       else if decide (data = "bases: []") then yaml.node docEmptyBases
       else if decide (data = "bases: [{name: ubuntu, channel: stable}]")
            then yaml.node docUbuntu
       else if decide (data = "bases: [{name: ubuntu, channel: stable}, {name: plan9, channel: stable}]")
            then yaml.node docPlan9
       else yaml.syntaxError (foreign "yaml: syntax error") |}.

(** Documents: the metadata is its series list, the other documents
    carry nothing; a parser fails on the text "!". *)
Definition parseUnit (r : io.Reader) : option unit * option error :=
  if decide (io.data r = "!") then (None, Some (foreign "malformed document"))
  else (Some tt, None).

#[local] Instance documents : charm.Documents :=
  {| charm.Meta := slice string;
     charm.Series := fun m => m;
     charm.Check := fun _ f =>
       Return (if decide (f = charm.FormatV1) then None
               else Some (notValid "series not allowed with bases"));
     charm.Config := unit;
     charm.Metrics := unit;
     charm.Actions := unit;
     charm.LXDProfile := unit;
     charm.ReadMeta := fun r =>
       if decide (io.data r = "!") then (None, Some (foreign "malformed document"))
       else (Some (Some [io.data r]), None);
     charm.ReadConfig := parseUnit;
     charm.NewConfig := tt;
     charm.ReadMetrics := parseUnit;
     charm.ReadActionsYaml := parseUnit;
     charm.NewActions := tt;
     charm.ReadLXDProfile := parseUnit;
     charm.NewLXDProfile := tt;
     charm.ReadVersion := fun r => (io.data r, None);
     charm.Fscan := fun r old =>
       if decide (io.data r = "7") then (7%Z, None)
       else (old, Some (foreign "expected integer")) |}.

Definition metaOf (series : slice string) : charm.Meta := series.

(** A file system in which a [ReaderAt] is the list of entries it
    holds and no path leads to an archive. *)
#[local] Instance files : charm.FileSystem :=
  {| charm.ReaderAt := list charm.zipFile;
     charm.os_Open := fun _ => None;
     charm.File_Stat := fun _ => (0%Z, None);
     charm.zip_NewReader := fun src _ =>
       match src with
       | inl entries => (entries, None)
       | inr _ => ([], Some (foreign "zip: not a valid zip file"))
       end;
     charm.os_Stat := fun _ => (true, None) |}.

Definition reader (content : string) : io.Reader :=
  {| io.data := content; io.readErr := None |}.

Definition entry (name content : string) : charm.zipFile :=
  {| charm.zName := name; charm.zOpen := (reader content, None) |}.

(** A container given by its entries, and an opener that yields it. *)
Definition container (entries : list charm.zipFile) : charm.zipReadCloser :=
  {| charm.Closer := None; charm.File := entries |}.

Definition opener (entries : list charm.zipFile) : charm.zipOpener :=
  charm.zipReaderOpener entries 0.

(** An archive that holds the given manifest and nothing else. *)
Definition archiveWith (m : option charm.Manifest) : charm.CharmArchive :=
  charm.set_manifest (charm.CharmArchive_zero (opener [])) m.

(** A charm that holds the given manifest and series. *)
Definition charmWith (m : option charm.Manifest) (series : slice string)
  : charm.Charm :=
  {| charm.Charm_Meta := Some (metaOf series); charm.Charm_Manifest := m |}.

Definition manifestOf (bases : slice systems.Base) : charm.Manifest :=
  {| charm.Bases := bases |}.

Definition resourceMeta (name : string) (t : Z) (path : string) : resource.Meta :=
  {| resource.Name := name; resource.Type_ := t; resource.Path := path;
     resource.Comment := "" |}.

(** The last element of a path written with "/". *)
Fixpoint lastElement (acc path : string) : string :=
  match path with
  | EmptyString => acc
  | String c path' =>
      if decide (String c "" = "/") then lastElement "" path'
      else lastElement (acc +:+ String c "") path'
  end.

(** A host with the hooks install and start, on which the hooks
    directory of "/missing" does not exist, writing the revision 13
    fails, and nothing else does. *)
#[local] Instance host : charm.HostOS :=
  {| charm.Hooks := fun _ =>
       Return (<["install" := true]> (<["start" := true]> (∅ : gmap string bool)));
     charm.ziputil_Find := fun entries _ => (charm.zName <$> entries, None);
     charm.ziputil_ExtractAll := fun _ _ => None;
     charm.filepath_Join := fun d f => d +:+ "/" +:+ f;
     charm.filepath_Base := lastElement "";
     charm.filepath_Walk := fun root _ =>
       Return (if decide (root = "/missing/hooks")
               then Some (foreign "no such file or directory") else None);
     charm.os_IsNotExist := fun err =>
       bool_decide (err = foreign "no such file or directory");
     charm.os_Create := fun _ => None;
     charm.File_Write := fun _ content =>
       if decide (content = "13") then Some (foreign "no space left on device")
       else None;
     charm.File_Sync := fun _ => None;
     charm.File_Close := fun _ => None |}.

(** An archive read from the given entries, with the given revision. *)
Definition archiveOf (entries : list charm.zipFile) (revision : Z) : charm.CharmArchive :=
  charm.set_revision
    (charm.set_meta (charm.CharmArchive_zero (opener entries)) (Some (metaOf None)))
    revision.

(** The base ubuntu/stable as an element of a coerced list, the document
    that declares it, and the manifest read from that document. *)
Definition ubuntuStable : value :=
  VMapS [("name", VString "ubuntu"); ("channel", VString "stable")].

Definition ubuntuDocument : string := "bases: [{name: ubuntu, channel: stable}]".

Definition ubuntuManifest : charm.Manifest :=
  manifestOf (Some [base "ubuntu" "stable"]).

(** An element without a name. *)
Definition unnamedBase : value := VMapS [("channel", VString "stable")].

(** An entry that cannot be opened. *)
Definition brokenEntry (name : string) : charm.zipFile :=
  {| charm.zName := name; charm.zOpen := (reader "", Some (foreign "bad entry")) |}.

(** An archive with the given metadata and manifest. *)
Definition archiveHolding (series : slice string) (m : charm.Manifest)
  : charm.CharmArchive :=
  charm.set_meta (archiveWith (Some m)) (Some (metaOf series)).

(** A directory reader that finds a V1 charm everywhere. *)
Definition readDir (path : string) : charm.proc charm.Charm :=
  mret (charmWith (Some (manifestOf None)) (Some ["focal"])).

(** The hooks of the sample host, and a hook file without the
    owner-execute bit. *)
Definition hooks : gmap string bool :=
  <["install" := true]> (<["start" := true]> ∅).

End Sample.

(** * Properties *)

(** ** Slices *)

Module GoFacts.

Lemma elems_append {A} (s : slice A) (x : A) : elems (append s x) = elems s ++ [x].
Proof. reflexivity. Qed.

End GoFacts.

Import GoFacts.

(** ** Resource metadata *)

Module ResourceFacts.

Import resource.

Section Facts.
Context `{TypeTable}.

(** The five messages differ whatever the type and the path are. *)
Lemma messages_distinct (t : Ty) (err : error) (path : string) :
  NoDup [msgMissingName; msgMissingType; msgInvalidType t err;
         msgMissingFilename; msgSeparator path].
Proof.
  repeat constructor; rewrite ?elem_of_cons, ?elem_of_nil;
    unfold msgMissingName, msgMissingType, msgInvalidType,
           msgMissingFilename, msgSeparator; simpl;
    intuition discriminate.
Qed.

(** C6. [Meta.Validate] runs five checks in a fixed order and stops at
    the first that fails: the name is empty; the type is the zero value;
    the type is not in the enumeration; the path is empty; the type is
    file and the path contains a "/". Each failure is a not-valid error
    with its own message, and a record that passes all five is valid. In
    particular, when the file type is non-zero and in the enumeration,
    the record with an empty name fails on the name, the file record with
    path "a/b" fails on the separator, and the file record with path "a"
    is valid. *)
Theorem Meta_Validate_order (meta : Meta) :
  (Name meta = "" -> Validate meta = Some (notValid msgMissingName)) /\
  (Name meta <> "" -> Type_ meta = typeUnknown ->
     Validate meta = Some (notValid msgMissingType)) /\
  (Name meta <> "" -> Type_ meta <> typeUnknown ->
     forall err, Type_Validate (Type_ meta) = Some err ->
     Validate meta = Some (notValid (msgInvalidType (Type_ meta) err))) /\
  (Name meta <> "" -> Type_ meta <> typeUnknown ->
     Type_Validate (Type_ meta) = None -> Path meta = "" ->
     Validate meta = Some (notValid msgMissingFilename)) /\
  (Name meta <> "" -> Type_ meta <> typeUnknown ->
     Type_Validate (Type_ meta) = None -> Path meta <> "" ->
     Type_ meta = TypeFile -> Contains (Path meta) "/" = true ->
     Validate meta = Some (notValid (msgSeparator (Path meta)))) /\
  (Name meta <> "" -> Type_ meta <> typeUnknown ->
     Type_Validate (Type_ meta) = None -> Path meta <> "" ->
     (Type_ meta = TypeFile -> Contains (Path meta) "/" = false) ->
     Validate meta = None) /\
  (forall err,
     NoDup [msgMissingName; msgMissingType; msgInvalidType (Type_ meta) err;
            msgMissingFilename; msgSeparator (Path meta)]) /\
  (TypeFile <> typeUnknown -> Type_Validate TypeFile = None ->
     forall comment,
     Validate {| Name := ""; Type_ := TypeFile; Path := "x"; Comment := comment |}
       = Some (notValid msgMissingName) /\
     Validate {| Name := "x"; Type_ := TypeFile; Path := "a/b"; Comment := comment |}
       = Some (notValid (msgSeparator "a/b")) /\
     Validate {| Name := "x"; Type_ := TypeFile; Path := "a"; Comment := comment |}
       = None).
Proof.
  unfold Validate. split_and!.
  - intros Hn. by rewrite decide_True.
  - intros Hn Ht. by rewrite decide_False, decide_True.
  - intros Hn Ht err Hv. rewrite Hv. by rewrite !decide_False.
  - intros Hn Ht Hv Hp. rewrite Hv. repeat case_decide; done.
  - intros Hn Ht Hv Hp Hf Hc. rewrite Hv, Hc. repeat case_decide; done.
  - intros Hn Ht Hv Hp Hf. rewrite Hv.
    repeat case_decide; try done. by rewrite Hf.
  - intros err. apply messages_distinct.
  - intros Hfile Hvalid comment. simpl. rewrite Hvalid.
    split_and!; repeat case_decide; done.
Qed.

(** C10, amended. [ParseMeta] on nil data gives the zero record with the
    name and no error. On other data it faults on a failed type
    assertion when the data is not a [map[string]interface{}] and when
    the value under "type" is neither nil nor a string. When the string
    under "type" fails [ParseType], the traced error is returned at
    once, whatever "filename" and "comment" hold. Only when the type is
    missing or accepted are "filename" and then "comment" read: a value
    that is neither nil nor a string faults, otherwise the record is
    returned without error. An error is returned in no other case than
    a failing [ParseType]. *)
Theorem ParseMeta_shapes (name : string) :
  let zero := {| Name := name; Type_ := typeUnknown; Path := ""; Comment := "" |} in
  ParseMeta name VNil = Return (zero, None) /\
  (forall data, data <> VNil -> (forall rMap, data <> VMapS rMap) ->
     ParseMeta name data = Panic typeAssertion) /\
  (forall rMap, stringOrNil (index rMap "type") = false ->
     ParseMeta name (VMapS rMap) = Panic typeAssertion) /\
  (forall rMap s t e, index rMap "type" = VString s -> ParseType s = (t, Some e) ->
     ParseMeta name (VMapS rMap) = Return (setType zero t, Some (traced e))) /\
  (forall rMap, typeAccepted rMap ->
     stringOrNil (index rMap "filename") = false ->
     ParseMeta name (VMapS rMap) = Panic typeAssertion) /\
  (forall rMap, typeAccepted rMap ->
     stringOrNil (index rMap "filename") = true ->
     stringOrNil (index rMap "comment") = false ->
     ParseMeta name (VMapS rMap) = Panic typeAssertion) /\
  (forall rMap, typeAccepted rMap ->
     stringOrNil (index rMap "filename") = true ->
     stringOrNil (index rMap "comment") = true ->
     exists meta, ParseMeta name (VMapS rMap) = Return (meta, None) /\
                  Name meta = name) /\
  (forall data meta err, ParseMeta name data = Return (meta, Some err) ->
     exists rMap s t e,
       data = VMapS rMap /\ index rMap "type" = VString s /\
       ParseType s = (t, Some e) /\ err = traced e /\ meta = setType zero t).
Proof.
  intros zero. unfold ParseMeta. fold zero. split_and!.
  - done.
  - intros data Hnil Hmap. destruct data; try done. by destruct (Hmap m).
  - intros rMap Ht. simpl.
    destruct (index rMap "type"); done.
  - intros rMap s t e Ht Hp. simpl. rewrite Ht.
    simpl. rewrite Hp. done.
  - intros rMap Ht Hf. simpl.
    destruct Ht as [-> | (s & -> & Hp)]; simpl.
    + destruct (index rMap "filename"); done.
    + destruct (ParseType s) as [t [e|]]; [done|]. simpl.
      destruct (index rMap "filename"); done.
  - intros rMap Ht Hf Hc. simpl.
    destruct Ht as [-> | (s & -> & Hp)]; simpl.
    + destruct (index rMap "filename"); try done;
        destruct (index rMap "comment"); done.
    + destruct (ParseType s) as [t [e|]]; [done|]. simpl.
      destruct (index rMap "filename"); try done;
        destruct (index rMap "comment"); done.
  - intros rMap Ht Hf Hc. simpl.
    destruct Ht as [-> | (s & -> & Hp)]; simpl.
    + destruct (index rMap "filename"); try done;
        destruct (index rMap "comment"); try done; simpl; eauto.
    + destruct (ParseType s) as [t [e|]]; [done|]. simpl.
      destruct (index rMap "filename"); try done;
        destruct (index rMap "comment"); try done; simpl; eauto.
  - intros data meta err. destruct data; try done. simpl.
   
    destruct (index m "type") eqn:Ht; try done; simpl.
    + destruct (index m "filename"); try done;
        destruct (index m "comment"); done.
    + destruct (ParseType s) as [t [e|]] eqn:Hp; simpl.
      * intros [= <- <-]. by exists m, s, t, e.
      * destruct (index m "filename"); try done;
          destruct (index m "comment"); done.
Qed.

End Facts.

End ResourceFacts.

(** ** The manifest *)

Module ManifestFacts.

Import systems charm.

Section Facts.
Context `{Platforms} `{yaml.Decoder}.

(** [parseBases] appends one base per element: its result is nil
    exactly when nothing was appended to a nil slice. *)
Lemma parseBases_range_length (input : list value) (res bases : slice Base) :
  parseBases_range input res = Return (bases, None) ->
  (input = [] /\ bases = res) \/
  (input <> [] /\ exists bs, bases = Some bs /\
                             length bs = length (elems res) + length input).
Proof.
  revert res. induction input as [|v input IH]; intros res Hrun.
  - left. simpl in Hrun. by simplify_eq.
  - right. split; [done|]. simpl in Hrun.
    destruct (assertMapS v) as [baseMap|]; [|done]. simpl in Hrun.
    destruct (lookupS "name" baseMap) as [nv|]; simpl in Hrun.
    + destruct (assertString nv) as [name|]; [|done]. simpl in Hrun.
      destruct (lookupS "channel" baseMap) as [cv|]; simpl in Hrun.
      * destruct (assertString cv) as [ch|]; [|done]. simpl in Hrun.
        destruct (channel_Parse ch) as [c [e|]]; simpl in Hrun; [done|].
        destruct (Base_Validate _); [done|].
        apply IH in Hrun as [[-> ->] | (_ & bs & -> & Hlen)]; eexists;
          (split; [done|]); rewrite ?elems_append, ?length_app in *; simpl in *; lia.
      * destruct (Base_Validate _); [done|].
        apply IH in Hrun as [[-> ->] | (_ & bs & -> & Hlen)]; eexists;
          (split; [done|]); rewrite ?elems_append, ?length_app in *; simpl in *; lia.
    + destruct (lookupS "channel" baseMap) as [cv|]; simpl in Hrun.
      * destruct (assertString cv) as [ch|]; [|done]. simpl in Hrun.
        destruct (channel_Parse ch) as [c [e|]]; simpl in Hrun; [done|].
        destruct (Base_Validate _); [done|].
        apply IH in Hrun as [[-> ->] | (_ & bs & -> & Hlen)]; eexists;
          (split; [done|]); rewrite ?elems_append, ?length_app in *; simpl in *; lia.
      * destruct (Base_Validate _); [done|].
        apply IH in Hrun as [[-> ->] | (_ & bs & -> & Hlen)]; eexists;
          (split; [done|]); rewrite ?elems_append, ?length_app in *; simpl in *; lia.
Qed.

(** A slice that [parseBases] returns is nil exactly when it is empty. *)
Lemma parseBases_nil_iff_empty (input : value) (bases : slice Base) :
  parseBases input = Return (bases, None) ->
  bases = None <-> len bases = 0.
Proof.
  unfold parseBases. intros Hrun.
  assert (bases = None \/ exists l, input = VList l /\
            parseBases_range l None = Return (bases, None)) as [->|(l & -> & Hl)].
  { destruct input; simpl in Hrun; simplify_eq; eauto. }
  - done.
  - apply parseBases_range_length in Hl as [[-> ->] | (Hne & bs & -> & Hlen)].
    + done.
    + unfold len; simpl in *. split; [done|]. intros Hz.
      destruct l; [done|]. simpl in Hlen. lia.
Qed.

(** What [UnmarshalYAML] leaves in the receiver when it returns no error:
    the manifest built from the result of [parseBases], or the receiver
    as it was. *)
Lemma UnmarshalYAML_result (m0 m : Manifest) f :
  UnmarshalYAML m0 f = Return (m, None) ->
  m = m0 \/
  exists newV bases, parseBases (VList newV) = Return (bases, None) /\
                     m = {| Bases := bases |}.
Proof.
  unfold UnmarshalYAML. destruct (f []) as [raw [e|]]; [intros; simplify_eq|].
  destruct (schema.Coerce _ _ _) as [v [e|]]; [intros; simplify_eq|].
  destruct v; simpl; try (intros; simplify_eq; by left).
  destruct (parseBases_range l None) as [[bases [e|]]|] eqn:Hp; simpl;
    intros; simplify_eq.
  right. by exists l, bases.
Qed.

Lemma UnmarshalYAML_nil_iff_empty (m : Manifest) f :
  UnmarshalYAML NewManifest f = Return (m, None) ->
  Bases m = None <-> len (Bases m) = 0.
Proof.
  intros [-> | (newV & bases & Hp & ->)]%UnmarshalYAML_result; [done|].
  simpl. by eapply parseBases_nil_iff_empty.
Qed.

(** A manifest that [ReadManifest] returns was built by
    [UnmarshalYAML] without error. *)
Lemma ReadManifest_Some (r : io.Reader) (m : Manifest) (err : option error) :
  ReadManifest r = Return (Some m, err) ->
  err = None /\
  exists v, yaml.parse (io.data r) = yaml.node v /\
            UnmarshalYAML NewManifest (yaml.decodeInto v) = Return (m, None).
Proof.
  unfold ReadManifest, io.ReadAll, Unmarshal.
  destruct (io.readErr r); [done|].
  destruct (yaml.parse (io.data r)) as [e| |v]; simpl; try done.
  destruct (UnmarshalYAML _ _) as [[m' [e|]]|] eqn:Hu; simpl; try done.
  intros [= <- <-]. eauto.
Qed.

(** C3, amended. [parseBases] maps a nil input to the nil slice, and a
    list that is present and empty to the nil slice as well; it never
    returns an empty slice that is not nil, and neither does a manifest
    that [ReadManifest] returns carry one, so the two cases cannot be
    told apart through [Bases]. For a document whose "bases" is an empty
    sequence [ReadManifest] returns a manifest with a nil [Bases]. *)
Theorem manifest_nil_cases :
  parseBases VNil = Return (None, None) /\
  parseBases (VList []) = Return (None, None) /\
  (forall input bases, parseBases input = Return (bases, None) ->
     bases <> Some []) /\
  (forall r m err, ReadManifest r = Return (Some m, err) ->
     Bases m <> Some []) /\
  (forall r raw, io.readErr r = None ->
     yaml.parse (io.data r) = yaml.node (VMapI raw) ->
     lookupI "bases" raw = Some (VList []) ->
     ReadManifest r = Return (Some {| Bases := None |}, None)).
Proof.
  split_and!; try done.
  - intros input bases Hp ->.
    apply parseBases_nil_iff_empty in Hp as [_ Hp]. by specialize (Hp eq_refl).
  - intros r m err (-> & v & _ & Hu)%ReadManifest_Some Hb.
    apply UnmarshalYAML_nil_iff_empty in Hu as [_ Hu].
    rewrite Hb in Hu. by specialize (Hu eq_refl).
  - intros r raw Hr Hp Hraw.
    unfold ReadManifest, io.ReadAll, Unmarshal, UnmarshalYAML.
    rewrite Hr, Hp. simpl. by rewrite app_nil_r, Hraw.
Qed.

(** *** Unknown platform names *)

Lemma Coerce_baseSchema_unknown (e : value) (path : list string) :
  hasUnknownName e ->
  exists err, schema.Coerce baseSchema e path = (VNil, Some err).
Proof.
  intros (get & v & Hget & Hname & Hv). unfold platformNames in Hv.
  rewrite !not_elem_of_cons in Hv. destruct_and!.
  unfold baseSchema. simpl. rewrite Hget. simpl. rewrite Hname.
  destruct v as [|s| | | | |]; simpl; eauto.
  rewrite !(proj2 (String.eqb_neq _ _)) by congruence. eauto.
Qed.

(** [List] fails as soon as one element does. *)
Lemma List_range_fail coerce (path : list string) (e : value) (l : list value) :
  e ∈ l ->
  (forall p, exists err, coerce e p = (VNil, Some err)) ->
  forall i out, exists err, schema.List_range coerce path l i out = (VNil, Some err).
Proof.
  intros Hin He. induction l as [|x l IH]; intros i out.
  - by apply elem_of_nil in Hin.
  - simpl. destruct (coerce x _) as [v' [err|]] eqn:Hx; [eauto|].
    apply elem_of_cons in Hin as [->|Hin].
    + destruct (He (path ++ ["["; pretty i; "]"])) as [err Herr]. congruence.
    + by apply IH.
Qed.

(** C7. A manifest document whose "bases" sequence contains a record
    with a "name" outside the six platform names does not parse,
    whatever else the record and the other elements hold:
    [UnmarshalYAML] returns an error and leaves the receiver as it was,
    and [ReadManifest] returns an error and no manifest. *)
Theorem unknown_platform_fails (raw : list (value * value)) (l : list value)
    (e : value) :
  lookupI "bases" raw = Some (VList l) -> e ∈ l -> hasUnknownName e ->
  (forall m f, f [] = (raw, None) ->
     exists err, UnmarshalYAML m f = Return (m, Some err)) /\
  (forall r, io.readErr r = None ->
     yaml.parse (io.data r) = yaml.node (VMapI raw) ->
     exists err, ReadManifest r = Return (None, Some err)).
Proof.
  intros Hraw Hin He.
  assert (forall m f, f [] = (raw, None) ->
            exists err, UnmarshalYAML m f = Return (m, Some err)) as Hum.
  { intros m f Hf. unfold UnmarshalYAML. rewrite Hf, Hraw.
    change (schema.Coerce (schema.List baseSchema) (default VNil (Some (VList l))) [])
      with (schema.List_range (schema.Coerce baseSchema) [] l 0 []).
    destruct (List_range_fail (schema.Coerce baseSchema) [] e l Hin
                (fun p => Coerce_baseSchema_unknown e p He) 0 []) as [err ->].
    by exists (annotated "coerce" err). }
  split; [done|].
  intros r Hr Hp. unfold ReadManifest, io.ReadAll, Unmarshal. rewrite Hr, Hp.
  destruct (Hum NewManifest (yaml.decodeInto (VMapI raw))) as [err ->].
  { simpl. by rewrite app_nil_r. }
  by exists (annotated "manifest" err).
Qed.

End Facts.

End ManifestFacts.

(** ** Series *)

Module CharmFacts.

Import systems charm.

Section Facts.
Context `{Platforms} `{yaml.Decoder} `{Documents} `{FileSystem}.

Lemma SeriesForCharm_range_true (requested : string) (l : list string) :
  SeriesForCharm_range requested l = true <-> requested ∈ l.
Proof.
  induction l as [|s l IH]; simpl.
  - split; [done|]. by intros ?%elem_of_nil.
  - rewrite elem_of_cons.
    destruct (decide (s = requested)) as [->|Hne].
    + split; [by left|done].
    + rewrite IH. split; [by right|]. intros [?|?]; [congruence|done].
Qed.

(** C4. [SeriesForCharm] on a requested series and a supported list:
    with an empty list, an empty request is the missing-series error
    and any other request is returned as it is; with a non-empty list,
    an empty request gives the first entry, a request equal to some
    entry is returned, and any other request fails with the
    unsupported-series error that carries the request and the whole
    list. *)
Theorem SeriesForCharm_cases (requested : string) (supported : slice string) :
  (len supported = 0 -> requested = "" ->
     SeriesForCharm requested supported = ("", Some errMissingSeries) /\
     IsMissingSeriesError (Some errMissingSeries) = true) /\
  (len supported = 0 -> requested <> "" ->
     SeriesForCharm requested supported = (requested, None)) /\
  (len supported <> 0 -> requested = "" ->
     exists first rest, elems supported = first :: rest /\
       SeriesForCharm requested supported = (first, None)) /\
  (len supported <> 0 -> requested <> "" -> requested ∈ elems supported ->
     SeriesForCharm requested supported = (requested, None)) /\
  (len supported <> 0 -> requested <> "" -> requested ∉ elems supported ->
     SeriesForCharm requested supported
       = ("", Some (unsupportedSeriesError requested supported)) /\
     IsUnsupportedSeriesError
       (Some (unsupportedSeriesError requested supported)) = true).
Proof.
  unfold SeriesForCharm. split_and!.
  - intros Hl Hr. split; [|done]. by rewrite !decide_True.
  - intros Hl Hr. by rewrite decide_True, decide_False.
  - intros Hl Hr. rewrite decide_False, decide_True by done.
    unfold len in Hl. destruct (elems supported) as [|first rest]; [done|].
    by exists first, rest.
  - intros Hl Hr Hin. rewrite !decide_False by done.
    apply SeriesForCharm_range_true in Hin. by rewrite Hin.
  - intros Hl Hr Hin. split; [|done]. rewrite !decide_False by done.
    destruct (SeriesForCharm_range _ _) eqn:Hloop; [|done].
    by apply SeriesForCharm_range_true in Hloop.
Qed.

(** *** The loop of [ComputedSeries] *)

Lemma tracks_append (sl : slice string) (set : gset string) (s : string) :
  tracks sl set -> tracks (append sl s) ({[s]} ∪ set).
Proof.
  unfold tracks. intros ->. rewrite elems_append, list_to_set_app_L. simpl.
  rewrite (right_id_L ∅ (∪)). apply (comm_L (∪)).
Qed.

Lemma tracks_nil : tracks None ∅.
Proof. reflexivity. Qed.

Lemma range_app (l1 l2 : list Base) (sl : slice string) (set : gset string) :
  tracks sl set ->
  ComputedSeries_range (l1 ++ l2) sl set
  = ComputedSeries_range l2 (ComputedSeries_range l1 sl set)
      (list_to_set (elems (ComputedSeries_range l1 sl set))).
Proof.
  revert sl set. induction l1 as [|b l1 IH]; intros sl set Ht; simpl.
  - by rewrite <- Ht.
  - case_decide; [by apply IH|]. apply IH. by apply tracks_append.
Qed.

Lemma range_extends (l : list Base) (sl : slice string) (set : gset string) :
  tracks sl set -> NoDup (elems sl) ->
  exists rest,
    elems (ComputedSeries_range l sl set) = elems sl ++ rest /\
    NoDup (elems sl ++ rest) /\
    rest `sublist_of` (Base_String <$> l) /\
    (forall s, s ∈ rest <-> s ∈ (Base_String <$> l) /\ s ∉ elems sl).
Proof.
  revert sl set. induction l as [|b l IH]; intros sl set Ht Hnd; simpl.
  - exists []. rewrite app_nil_r. split_and!; try done.
    intros s. rewrite !elem_of_nil. split; [done|]. by intros [[] _].
  - assert (forall s, s ∈ set <-> s ∈ elems sl) as Hset.
    { intros s. rewrite Ht. apply elem_of_list_to_set. }
    case_decide as Hin.
    + destruct (IH sl set Ht Hnd) as (rest & Hr & Hnd' & Hsub & Hel).
      exists rest. split_and!; try done.
      * by apply sublist_cons.
      * intros s. rewrite Hel, elem_of_cons. split.
        { intros [? ?]. split; [by right|done]. }
        intros [[->|?] ?]; [|done]. by apply Hset in Hin.
    + destruct (IH (append sl (Base_String b)) ({[Base_String b]} ∪ set))
        as (rest & Hr & Hnd' & Hsub & Hel).
      { by apply tracks_append. }
      { rewrite elems_append. apply NoDup_app. split_and!; try done.
        - intros s Hs ->%list_elem_of_singleton. by apply Hin, Hset.
        - apply NoDup_singleton. }
      rewrite elems_append in Hr, Hnd', Hel. rewrite <- app_assoc in Hr, Hnd'.
      exists (Base_String b :: rest). split_and!; try done.
      * by apply sublist_skip.
      * intros s. rewrite elem_of_cons, Hel, elem_of_cons, elem_of_app,
          list_elem_of_singleton.
        split.
        { intros [->|[HL Hn]].
          - split; [by left|]. intros ?. by apply Hin, Hset.
          - split; [by right|]. intros ?. apply Hn. by left. }
        intros [HBL Hn].
        destruct (decide (s = Base_String b)) as [->|Hne]; [by left|].
        right. destruct HBL as [?|HL]; [done|]. split; [done|].
        intros [?|?]; done.
Qed.

Lemma range_from_nil (l : list Base) :
  let r := elems (ComputedSeries_range l None ∅) in
  NoDup r /\
  r `sublist_of` (Base_String <$> l) /\
  (forall s, s ∈ r <-> s ∈ (Base_String <$> l)).
Proof.
  destruct (range_extends l None ∅ tracks_nil (NoDup_nil_2 (A:=string)))
    as (rest & Hr & Hnd & Hsub & Hel).
  simpl in *. rewrite Hr. split_and!; try done.
  intros s. rewrite Hel. rewrite elem_of_nil.
  split; [by intros [? _]|]. intros ?. split; [done|]. by intros [].
Qed.

(** A base whose string has not occurred before lands right behind the
    result for the bases in front of it. *)
Lemma range_first_occurrence (l1 l2 : list Base) (b : Base) :
  Base_String b ∉ (Base_String <$> l1) ->
  exists rest,
    elems (ComputedSeries_range (l1 ++ b :: l2) None ∅)
    = elems (ComputedSeries_range l1 None ∅) ++ Base_String b :: rest.
Proof.
  intros Hnew. rewrite range_app by apply tracks_nil.
  destruct (range_from_nil l1) as (Hnd & _ & Hel). simpl in Hnd, Hel.
  set (sl := ComputedSeries_range l1 None ∅) in *. simpl.
  rewrite decide_False.
  2:{ rewrite elem_of_list_to_set, Hel. done. }
  destruct (range_extends l2 (append sl (Base_String b))
              ({[Base_String b]} ∪ list_to_set (elems sl)))
    as (rest & Hr & _).
  { by apply tracks_append. }
  { rewrite elems_append. apply NoDup_app. split_and!; try done.
    - intros s Hs ->%list_elem_of_singleton. by apply Hnew, Hel.
    - apply NoDup_singleton. }
  rewrite Hr, elems_append, <- app_assoc. by exists rest.
Qed.

(** C5. For a charm of format V1 both [ComputedSeries] return the series
    list of the metadata as it is. For a charm of format V2 they return
    what the loop over the bases builds: the strings of the bases, each
    once, in the order in which they first occur. The bases ubuntu/stable,
    centos/edge, ubuntu/stable give ubuntu/stable, centos/edge. *)
Theorem ComputedSeries_spec :
  (forall c m mt, Charm_Manifest c = Some m -> Charm_Meta c = Some mt ->
     ReadCharm_format c = Return FormatV1 ->
     ComputedSeries c = Return (Series mt)) /\
  (forall a m mt, manifest a = Some m -> meta a = Some mt ->
     CharmArchive_Format a = Return FormatV1 ->
     CharmArchive_ComputedSeries a = Return (Series mt)) /\
  (forall c m, Charm_Manifest c = Some m ->
     ReadCharm_format c = Return FormatV2 ->
     ComputedSeries c = Return (ComputedSeries_range (elems (Bases m)) None ∅)) /\
  (forall a m, manifest a = Some m ->
     CharmArchive_Format a = Return FormatV2 ->
     CharmArchive_ComputedSeries a
       = Return (ComputedSeries_range (elems (Bases m)) None ∅)) /\
  (forall bases : list Base,
     let r := elems (ComputedSeries_range bases None ∅) in
     NoDup r /\
     r `sublist_of` (Base_String <$> bases) /\
     (forall s, s ∈ r <-> s ∈ (Base_String <$> bases)) /\
     (forall l1 b l2, bases = l1 ++ b :: l2 ->
        Base_String b ∉ (Base_String <$> l1) ->
        exists rest,
          r = elems (ComputedSeries_range l1 None ∅) ++ Base_String b :: rest)) /\
  (forall b1 b2 : Base, Base_String b1 <> Base_String b2 ->
     ComputedSeries_range [b1; b2; b1] None ∅
       = Some [Base_String b1; Base_String b2]).
Proof.
  split_and!.
  - intros c m mt Hm Hmt. unfold ReadCharm_format, ComputedSeries.
    rewrite Hm, Hmt. simpl. case_decide; done.
  - intros a m mt Hm Hmt Hf. unfold CharmArchive_ComputedSeries.
    rewrite Hf, Hmt. done.
  - intros c m Hm. unfold ReadCharm_format, ComputedSeries.
    rewrite Hm. simpl. case_decide; done.
  - intros a m Hm Hf. unfold CharmArchive_ComputedSeries.
    rewrite Hf, Hm. done.
  - intros bases r. destruct (range_from_nil bases) as (Hnd & Hsub & Hel).
    split_and!; try done.
    intros l1 b l2 -> Hnew. by apply range_first_occurrence.
  - intros b1 b2 Hne. cbn [ComputedSeries_range].
    rewrite decide_False by apply not_elem_of_empty.
    rewrite decide_False.
    2:{ rewrite elem_of_union, elem_of_singleton. by intros [?|?%elem_of_empty]. }
    rewrite decide_True.
    2:{ rewrite !elem_of_union, !elem_of_singleton. by right; left. }
    done.
Qed.

(** *** The format *)

(** C1, amended. The gate of [ReadCharm] gives V1 exactly when the
    manifest has no bases, nil or empty, and V2 exactly when it has at
    least one. [CharmArchive.Format], on an archive that holds a
    manifest, gives V1 exactly when [Bases] is nil and V2 otherwise. A
    manifest built by the decoder has a nil [Bases] exactly when it has no
    bases, so on a manifest that [ReadManifest] returns the two tests give
    the same format, which is V2 exactly when at least one base is
    declared: a manifest document that declares zero bases is V1. The
    format of the gate is the one [ReadCharm] hands to [Meta.Check]. *)
Theorem format_by_bases :
  (forall c m, Charm_Manifest c = Some m ->
     (ReadCharm_format c = Return FormatV1 <-> len (Bases m) = 0) /\
     (ReadCharm_format c = Return FormatV2 <-> len (Bases m) <> 0)) /\
  (forall a m, manifest a = Some m ->
     (CharmArchive_Format a = Return FormatV1 <-> Bases m = None) /\
     (CharmArchive_Format a = Return FormatV2 <-> Bases m <> None)) /\
  (forall data m, Unmarshal data = Return (Some m, None) ->
     Bases m = None <-> len (Bases m) = 0) /\
  (forall r m err a c, ReadManifest r = Return (Some m, err) ->
     manifest a = Some m -> Charm_Manifest c = Some m ->
     exists f, CharmArchive_Format a = Return f /\
               ReadCharm_format c = Return f /\
               (f = FormatV2 <-> len (Bases m) <> 0)) /\
  (forall Charm_Manifest_of ReadCharmDir path c m w w',
     os_Stat path = (true, None) -> ReadCharmDir path w = (Done c, w') ->
     Charm_Manifest c = Some m ->
     ReadCharm Charm_Manifest_of ReadCharmDir path w
     = (match Check (Charm_Meta c)
                (if decide (len (Bases m) = 0) then FormatV1 else FormatV2) with
        | Return err => Done (Some c, err)
        | Panic p => Panicked p
        end, w')).
Proof.
  assert (forall data m, Unmarshal data = Return (Some m, None) ->
            Bases m = None <-> len (Bases m) = 0) as Hdec.
  { intros data m. unfold Unmarshal.
    destruct (yaml.parse data) as [e| |v]; simpl; try done.
    destruct (UnmarshalYAML _ _) as [[m' [e|]]|] eqn:Hu; simpl; try done.
    intros [= <-]. by eapply ManifestFacts.UnmarshalYAML_nil_iff_empty. }
  split_and!; try done.
  - intros c m Hm. unfold ReadCharm_format. rewrite Hm. simpl.
    case_decide; split; split; intros; simplify_eq; try done.
  - intros a m Hm. unfold CharmArchive_Format. rewrite Hm. simpl.
    destruct (Bases m); split; split; intros; simplify_eq; try done.
  - intros r m err a c (-> & v & Hp & Hu)%ManifestFacts.ReadManifest_Some Ha Hc.
    apply ManifestFacts.UnmarshalYAML_nil_iff_empty in Hu.
    unfold CharmArchive_Format, ReadCharm_format. rewrite Ha, Hc. simpl.
    destruct (Bases m) as [bs|] eqn:Hb.
    + assert (len (Some bs) <> 0) as Hlen.
      { intros Hz. by apply Hu in Hz. }
      exists FormatV2. rewrite decide_False by done. split_and!; done.
    + exists FormatV1. rewrite decide_True by done. split_and!; done.
  - intros Charm_Manifest_of ReadCharmDir path c m w w' Hstat Hdir Hm.
    unfold ReadCharm, ReadCharm_format, attempt, lift, mbind, proc_bind,
      mret, proc_ret.
    rewrite Hstat, Hdir, Hm. simpl.
    by destruct (Check _ _).
Qed.

End Facts.

End CharmFacts.

(** ** The archive reader *)

Module ArchiveFacts.

Import systems charm.

Section Facts.
Context `{Platforms} `{yaml.Decoder} `{Documents} `{FileSystem}.

Ltac proc_unfold :=
  unfold mbind, proc_bind, mret, proc_ret, fail, check, attempt, lift,
         opened, closed, defer, Close, zipReadCloser_Close in *.

(** Opening an entry either gives a reader and one more open handle, or
    fails and opens nothing. *)
Lemma zipOpenFile_cases (zipr : zipReadCloser) (path : string) (w : list handle) :
  (exists reader, zipOpenFile zipr path w = (Done reader, rc_handle reader :: w)) \/
  (exists err, zipOpenFile zipr path w = (Failed err, w)).
Proof.
  unfold zipOpenFile. induction (File zipr) as [|fh files IH]; simpl.
  - right. eexists. reflexivity.
  - case_decide; [|done]. unfold zipFile_Open.
    destruct (zOpen fh) as [r [e|]]; proc_unfold; simpl.
    + right. by exists e.
    + left. by exists {| rc_handle := hEntry (zName fh); rc_reader := r |}.
Qed.

(** No entry of that name: the not-found error. *)
Lemma zipOpenFile_absent (zipr : zipReadCloser) (path : string) (w : list handle) :
  (forall fh, fh ∈ File zipr -> zName fh <> path) ->
  zipOpenFile zipr path w = (Failed (noCharmArchiveFile path), w).
Proof.
  unfold zipOpenFile. induction (File zipr) as [|fh files IH]; intros Hno; simpl.
  - done.
  - rewrite decide_False by (apply Hno; by left).
    apply IH. intros fh' Hin. apply Hno. by right.
Qed.

(** The metadata block only sets [meta] and leaves no handle open. *)
Lemma readCharmArchive_metadata_Done (zipr : zipReadCloser) (b b' : CharmArchive)
    (w w' : list handle) :
  readCharmArchive_metadata zipr b w = (Done b', w') ->
  w' = w /\ exists m, b' = set_meta b m.
Proof.
  unfold readCharmArchive_metadata. proc_unfold.
  destruct (zipOpenFile_cases zipr "metadata.yaml" w) as [[reader ->]|[err ->]];
    [|done].
  destruct (ReadMeta _) as [m [e|]]; simpl; rewrite decide_True by done; [done|].
  intros [= <- <-]. eauto.
Qed.

(** C2. [CharmArchive.Format] returns a format exactly when the field
    [manifest] is not nil, and faults on a nil dereference otherwise.
    [readCharmArchive] calls it on the archive under construction before
    anything has been stored in [manifest]: whenever the container opens
    and the metadata block succeeds, the manifest block faults, and so
    does [readCharmArchive]; no read returns an archive. *)
Theorem Format_nil_manifest :
  (forall a, manifest a = None -> CharmArchive_Format a = Panic nilDereference) /\
  (forall a, (exists f, CharmArchive_Format a = Return f) <-> manifest a <> None) /\
  (forall zopen zipr b w w1 w2,
     openZip zopen w = (Done zipr, w1) ->
     readCharmArchive_metadata zipr (CharmArchive_zero zopen) w1 = (Done b, w2) ->
     manifest b = None /\
     fst (readCharmArchive_manifest zipr b w2) = Panicked nilDereference /\
     fst (readCharmArchive zopen w) = Panicked nilDereference) /\
  (forall zopen w a, fst (readCharmArchive zopen w) <> Done a).
Proof.
  assert (forall a, manifest a = None ->
            CharmArchive_Format a = Panic nilDereference) as Hnil.
  { intros a Hm. unfold CharmArchive_Format. by rewrite Hm. }
  assert (forall zipr b w, manifest b = None ->
            readCharmArchive_manifest zipr b w = (Panicked nilDereference, w))
    as Hblock.
  { intros zipr b w Hm. unfold readCharmArchive_manifest. proc_unfold.
    by rewrite (Hnil b Hm). }
  split_and!.
  - done.
  - intros a. unfold CharmArchive_Format.
    destruct (manifest a) as [m|]; simpl.
    + split; [done|]. intros _. destruct (Bases m); eauto.
    + split; [by intros [? ?]|done].
  - intros zopen zipr b w w1 w2 Hopen Hmeta.
    pose proof Hmeta as (-> & m & ->)%readCharmArchive_metadata_Done.
    split_and!; [done| by rewrite Hblock |].
    unfold readCharmArchive. proc_unfold. rewrite Hopen.
    proc_unfold. rewrite Hmeta. by rewrite Hblock.
  - intros zopen w a. unfold readCharmArchive. proc_unfold.
    destruct (openZip zopen w) as [[zipr|e|p] w1]; try done.
    destruct (readCharmArchive_metadata zipr (CharmArchive_zero zopen) w1)
      as [[b|e|p] w2] eqn:Hmeta; try done.
    pose proof Hmeta as (-> & m & ->)%readCharmArchive_metadata_Done.
    by rewrite Hblock.
Qed.

(** X30. The "config.yaml" block of [readCharmArchive], lines 100-111,
    on any archive under construction: a lookup that ends in the
    not-found error, as it does when the container has no entry of that
    name, stores the default configuration and the optional blocks go on
    with the blocks that follow. When the entry opens and [ReadConfig]
    fails, the reader is closed and the block, and with it the optional
    blocks, return that error. Any other error of the lookup is returned
    as it is. *)
Theorem config_optional (zipr : zipReadCloser) (b : CharmArchive) (w : list handle) :
  (forall err w', zipOpenFile zipr "config.yaml" w = (Failed err, w') ->
     isNoCharmArchiveFile err = true ->
     readCharmArchive_config zipr b w
       = (Done (set_config b (Some NewConfig)), w') /\
     readCharmArchive_optional zipr b w
       = readCharmArchive_after_config zipr (set_config b (Some NewConfig)) w') /\
  ((forall fh, fh ∈ File zipr -> zName fh <> "config.yaml") ->
     readCharmArchive_config zipr b w
       = (Done (set_config b (Some NewConfig)), w)) /\
  (forall reader w' c err, zipOpenFile zipr "config.yaml" w = (Done reader, w') ->
     ReadConfig (rc_reader reader) = (c, Some err) ->
     readCharmArchive_config zipr b w = (Failed err, w) /\
     readCharmArchive_optional zipr b w = (Failed err, w)) /\
  (forall err w', zipOpenFile zipr "config.yaml" w = (Failed err, w') ->
     isNoCharmArchiveFile err = false ->
     readCharmArchive_config zipr b w = (Failed err, w') /\
     readCharmArchive_optional zipr b w = (Failed err, w')).
Proof.
  unfold readCharmArchive_optional, readCharmArchive_config. split_and!.
  - intros err w' Hopen Hnf. proc_unfold. by rewrite Hopen, Hnf.
  - intros Hno. proc_unfold. by rewrite zipOpenFile_absent.
  - intros reader w' c err Hopen Hread.
    destruct (zipOpenFile_cases zipr "config.yaml" w) as [[rd Hrd]|[e He]];
      [|congruence].
    rewrite Hrd in Hopen. injection Hopen as <- <-.
    proc_unfold. rewrite Hrd, Hread. simpl. by rewrite decide_True.
  - intros err w' Hopen Hnf. proc_unfold. by rewrite Hopen, Hnf.
Qed.

(** The blocks next to the "revision" block give back every handle they
    take. *)
Lemma sibling_blocks_close (zipr : zipReadCloser) (b : CharmArchive) (w : list handle) :
  snd (readCharmArchive_metadata zipr b w) = w /\
  snd (readCharmArchive_config zipr b w) = w /\
  snd (readCharmArchive_metrics zipr b w) = w /\
  snd (readCharmArchive_actions zipr b w) = w /\
  snd (readCharmArchive_lxdProfile zipr b w) = w /\
  snd (readCharmArchive_version zipr b w) = w.
Proof.
  unfold readCharmArchive_metadata, readCharmArchive_config,
    readCharmArchive_metrics, readCharmArchive_actions, getActions,
    readCharmArchive_lxdProfile, readCharmArchive_version.
  proc_unfold. split_and!.
  - destruct (zipOpenFile_cases zipr "metadata.yaml" w) as [[rd ->]|[e ->]];
      [|done].
    destruct (ReadMeta _) as [m [e|]]; simpl; by rewrite decide_True.
  - destruct (zipOpenFile_cases zipr "config.yaml" w) as [[rd ->]|[e ->]].
    + destruct (ReadConfig _) as [m [e|]]; simpl; by rewrite decide_True.
    + by destruct (isNoCharmArchiveFile e).
  - destruct (zipOpenFile_cases zipr "metrics.yaml" w) as [[rd ->]|[e ->]].
    + destruct (ReadMetrics _) as [m [e|]]; simpl; by rewrite decide_True.
    + by destruct (isNoCharmArchiveFile e).
  - destruct (zipOpenFile_cases zipr "actions.yaml" w) as [[rd ->]|[e ->]].
    + destruct (ReadActionsYaml _) as [m [e|]]; simpl; by rewrite decide_True.
    + by destruct (isNoCharmArchiveFile e).
  - destruct (zipOpenFile_cases zipr "lxd-profile.yaml" w) as [[rd ->]|[e ->]].
    + destruct (ReadLXDProfile _) as [m [e|]]; simpl; by rewrite decide_True.
    + by destruct (isNoCharmArchiveFile e).
  - destruct (zipOpenFile_cases zipr "version" w) as [[rd ->]|[e ->]].
    + destruct (ReadVersion _) as [m [e|]]; simpl; by rewrite decide_True.
    + by destruct (isNoCharmArchiveFile e).
Qed.

(** The "revision" block keeps the handle of the reader it opens,
    whether the scan succeeds or not. *)
Lemma readCharmArchive_revision_keeps (zipr : zipReadCloser) (b : CharmArchive)
    (w w' : list handle) (reader : ReadCloser) :
  zipOpenFile zipr "revision" w = (Done reader, w') ->
  snd (readCharmArchive_revision zipr b w) = rc_handle reader :: w.
Proof.
  intros Hopen.
  destruct (zipOpenFile_cases zipr "revision" w) as [[rd Hrd]|[e He]];
    [|congruence].
  rewrite Hrd in Hopen. injection Hopen as <- <-.
  unfold readCharmArchive_revision. proc_unfold. rewrite Hrd.
  by destruct (Fscan _ _) as [n [e|]].
Qed.

(** Opening a container either gives it with the handle its closer
    releases, or fails with nothing left open. *)
Lemma openZip_cases (zopen : zipOpener) (w : list handle) :
  (exists zipr, openZip zopen w
                = (Done zipr, match Closer zipr with
                              | Some h => h :: w
                              | None => w
                              end)) \/
  (exists err, openZip zopen w = (Failed err, w)).
Proof.
  destruct zopen as [path|r size]; unfold openZip; proc_unfold.
  - destruct (os_Open path) as [e|]; [right; by exists e|].
    destruct (File_Stat path) as [size [e|]].
    { right. exists e. simpl. by rewrite decide_True. }
    destruct (zip_NewReader (inr path) size) as [files [e|]].
    { right. exists e. simpl. by rewrite decide_True. }
    left. by exists {| Closer := Some (hFile path); File := files |}.
  - destruct (zip_NewReader (inl r) size) as [files [e|]].
    { right. by exists e. }
    left. by exists {| Closer := None; File := files |}.
Qed.

(** As [readCharmArchive] stands, every read ends with the handles it
    started with: it stops at the manifest block at the latest. *)
Lemma readCharmArchive_handles (zopen : zipOpener) (w : list handle) :
  snd (readCharmArchive zopen w) = w.
Proof.
  unfold readCharmArchive, mbind, proc_bind.
  destruct (openZip_cases zopen w) as [[zipr Hopen]|[err Hopen]];
    rewrite Hopen; [|done].
  set (w1 := match Closer zipr with Some h => h :: w | None => w end).
  assert (snd (zipReadCloser_Close zipr w1) = w) as Hclose.
  { unfold zipReadCloser_Close, closed, w1.
    destruct (Closer zipr); simpl; [by rewrite decide_True|done]. }
  unfold defer.
  pose proof (sibling_blocks_close zipr (CharmArchive_zero zopen) w1)
    as (Hsame & _).
  destruct (readCharmArchive_metadata zipr (CharmArchive_zero zopen) w1)
    as [[b|e|p] w2] eqn:Hmeta; simpl in Hsame; subst w2; try done.
  pose proof Hmeta as (_ & m & ->)%readCharmArchive_metadata_Done.
  unfold readCharmArchive_manifest, CharmArchive_Format. proc_unfold. done.
Qed.

(** C8. What the code does on a container that opens, whose
    "metadata.yaml" parses and which has no entry "config.yaml": the
    read faults on the nil dereference of line 88, with the container
    closed again, and returns no archive. The "config.yaml" block, which
    on the archive built so far would store the default configuration,
    is not reached. *)
Theorem config_default_not_reached (zo : zipOpener) (zipr : zipReadCloser)
    (b : CharmArchive) (w w1 w2 : list handle) :
  openZip zo w = (Done zipr, w1) ->
  readCharmArchive_metadata zipr (CharmArchive_zero zo) w1 = (Done b, w2) ->
  (forall fh, fh ∈ File zipr -> zName fh <> "config.yaml") ->
  readCharmArchive zo w = (Panicked nilDereference, w) /\
  readCharmArchive_config zipr b w2
    = (Done (set_config b (Some NewConfig)), w2).
Proof.
  intros Hopen Hmeta Hno. split.
  - pose proof (readCharmArchive_handles zo w) as Hw.
    assert (fst (readCharmArchive zo w) = Panicked nilDereference) as Hr.
    { unfold readCharmArchive. proc_unfold. rewrite Hopen. proc_unfold.
      rewrite Hmeta.
      pose proof Hmeta as (-> & m & ->)%readCharmArchive_metadata_Done.
      unfold readCharmArchive_manifest, CharmArchive_Format. proc_unfold.
      done. }
    destruct (readCharmArchive zo w) as [r w']. simpl in Hw, Hr. by subst.
  - unfold readCharmArchive_config. proc_unfold.
    by rewrite zipOpenFile_absent.
Qed.

End Facts.

End ArchiveFacts.

(** ** The properties on concrete inputs *)

Module Examples.

Import systems charm.

#[local] Existing Instances Sample.types Sample.channels Sample.platforms
  Sample.decoder Sample.documents Sample.files.

(** C1, counterexample. A manifest document that is present and declares
    zero bases parses to a manifest whose [Bases] is nil, and the format
    is V1, not V2, under [CharmArchive.Format] and under the gate of
    [ReadCharm]; the gate also gives V1 for an empty slice that is not
    nil. *)
Lemma zero_bases_is_V1 :
  ReadManifest (Sample.reader "bases: []")
    = Return (Some (Sample.manifestOf None), None) /\
  CharmArchive_Format (Sample.archiveWith (Some (Sample.manifestOf None)))
    = Return FormatV1 /\
  ReadCharm_format (Sample.charmWith (Some (Sample.manifestOf None)) None)
    = Return FormatV1 /\
  ReadCharm_format (Sample.charmWith (Some (Sample.manifestOf (Some []))) None)
    = Return FormatV1 /\
  Return FormatV1 <> Return FormatV2.
Proof. split_and!; try reflexivity. discriminate. Qed.

(** The format of a manifest read from a document with one base. *)
Lemma format_by_bases_witness :
  let m := Sample.manifestOf (Some [Sample.base "ubuntu" "stable"]) in
  exists f, CharmArchive_Format (Sample.archiveWith (Some m)) = Return f /\
            ReadCharm_format (Sample.charmWith (Some m) None) = Return f /\
            (f = FormatV2 <-> len (Bases m) <> 0).
Proof.
  intros m.
  destruct CharmFacts.format_by_bases as (_ & _ & _ & Hread & _).
  apply (Hread (Sample.reader "bases: [{name: ubuntu, channel: stable}]") m None);
    reflexivity.
Defined.

(** Reading a container that holds a well-formed metadata.yaml. *)
Lemma Format_nil_manifest_witness :
  fst (readCharmArchive (Sample.opener [Sample.entry "metadata.yaml" "focal"]) [])
    = Panicked nilDereference.
Proof.
  destruct ArchiveFacts.Format_nil_manifest as (_ & _ & Hread & _).
  pose (zopen := Sample.opener [Sample.entry "metadata.yaml" "focal"]).
  destruct (Hread zopen
              (Sample.container [Sample.entry "metadata.yaml" "focal"])
              (set_meta (CharmArchive_zero zopen)
                 (Some (Sample.metaOf (Some ["focal"]))))
              [] [] []) as (_ & _ & Hfault); [reflexivity|reflexivity|].
  exact Hfault.
Defined.

(** C3, counterexample. A list of bases that is present and empty gives
    the nil slice, not an empty slice, just as an absent input does; so
    does the whole document through [UnmarshalYAML] and [ReadManifest]. *)
Lemma empty_bases_is_nil :
  parseBases (VList []) = Return (None, None) /\
  parseBases VNil = Return (None, None) /\
  UnmarshalYAML NewManifest (yaml.decodeInto Sample.docEmptyBases)
    = Return (Sample.manifestOf None, None) /\
  ReadManifest (Sample.reader "bases: []")
    = Return (Some (Sample.manifestOf None), None) /\
  Sample.manifestOf None <> Sample.manifestOf (Some []).
Proof. split_and!; try reflexivity. discriminate. Qed.

(** [ReadManifest] on the document with zero bases. *)
Lemma manifest_nil_cases_witness :
  ReadManifest (Sample.reader "bases: []")
    = Return (Some (Sample.manifestOf None), None) /\
  Bases (Sample.manifestOf None) <> Some [].
Proof.
  destruct ManifestFacts.manifest_nil_cases
    as (_ & _ & _ & Hnever & Hempty).
  split_and!.
  - apply (Hempty (Sample.reader "bases: []") [(VString "bases", VList [])]);
      reflexivity.
  - apply (Hnever (Sample.reader "bases: []") _ None). reflexivity.
Defined.

(** [SeriesForCharm] for a charm without series and for charms that
    support bionic and focal. *)
Lemma SeriesForCharm_cases_witness :
  SeriesForCharm "" None = ("", Some errMissingSeries) /\
  SeriesForCharm "bionic" None = ("bionic", None) /\
  SeriesForCharm "" (Some ["bionic"; "focal"]) = ("bionic", None) /\
  SeriesForCharm "focal" (Some ["bionic"; "focal"]) = ("focal", None) /\
  SeriesForCharm "focal" (Some ["bionic"])
    = ("", Some (unsupportedSeriesError "focal" (Some ["bionic"]))).
Proof.
  split_and!.
  - destruct (CharmFacts.SeriesForCharm_cases "" None) as (Hcase & _).
    by apply Hcase.
  - destruct (CharmFacts.SeriesForCharm_cases "bionic" None)
      as (_ & Hcase & _).
    by apply Hcase.
  - destruct (CharmFacts.SeriesForCharm_cases "" (Some ["bionic"; "focal"]))
      as (_ & _ & Hcase & _).
    assert (len (Some ["bionic"; "focal"]) <> 0) as Hlen
      by (compute; discriminate).
    destruct (Hcase Hlen eq_refl) as (first & rest & Hl & ->).
    by injection Hl as <- _.
  - destruct (CharmFacts.SeriesForCharm_cases "focal" (Some ["bionic"; "focal"]))
      as (_ & _ & _ & Hcase & _).
    apply Hcase; [compute; discriminate|discriminate|].
    apply list_elem_of_In. simpl. tauto.
  - destruct (CharmFacts.SeriesForCharm_cases "focal" (Some ["bionic"]))
      as (_ & _ & _ & _ & Hcase).
    apply Hcase; [compute; discriminate|discriminate|].
    intros Hin%list_elem_of_In. simpl in Hin. intuition discriminate.
Defined.

(** The bases ubuntu/stable, centos/edge, ubuntu/stable. *)
Lemma ComputedSeries_spec_witness :
  ComputedSeries_range
    [Sample.base "ubuntu" "stable"; Sample.base "centos" "edge";
     Sample.base "ubuntu" "stable"] None ∅
  = Some ["ubuntu/stable"; "centos/edge"].
Proof.
  destruct CharmFacts.ComputedSeries_spec as (_ & _ & _ & _ & _ & Hexample).
  apply (Hexample (Sample.base "ubuntu" "stable") (Sample.base "centos" "edge")).
  discriminate.
Defined.

(** The three resource records, with the sample type table in which file
    is type 1. *)
Lemma Meta_Validate_order_witness :
  resource.Validate (Sample.resourceMeta "" 1 "x")
    = Some (notValid resource.msgMissingName) /\
  resource.Validate (Sample.resourceMeta "x" 1 "a/b")
    = Some (notValid (resource.msgSeparator "a/b")) /\
  resource.Validate (Sample.resourceMeta "x" 1 "a") = None.
Proof.
  destruct (ResourceFacts.Meta_Validate_order (Sample.resourceMeta "x" 1 "a"))
    as (_ & _ & _ & _ & _ & _ & _ & Hrecords).
  apply (Hrecords ltac:(discriminate) eq_refl "").
Defined.

(** C10, counterexample. A resource whose "type" fails the enumeration
    and whose "filename" is not a string: [ParseMeta] does not fault, it
    returns the error of the type. Nor does it fault on a "filename"
    that is present and nil. *)
Lemma type_error_precedes_fault :
  let rMap := [("type", VString "bogus"); ("filename", VInt 42)] in
  resource.stringOrNil (resource.index rMap "filename") = false /\
  resource.ParseMeta "r" (VMapS rMap)
    = Return (Sample.resourceMeta "r" 0 "",
              Some (traced (errorString
                              ("unsupported resource type " +:+ quote "bogus")))) /\
  resource.ParseMeta "r" (VMapS rMap) <> Panic typeAssertion /\
  resource.ParseMeta "r" (VMapS [("filename", VNil)])
    = Return (Sample.resourceMeta "r" 0 "", None).
Proof. split_and!; try reflexivity. discriminate. Qed.

(** A file resource with a filename that is not a string, and one with a
    proper filename. *)
Lemma ParseMeta_shapes_witness :
  resource.ParseMeta "r" (VMapS [("type", VString "file"); ("filename", VInt 42)])
    = Panic typeAssertion /\
  exists meta,
    resource.ParseMeta "r"
      (VMapS [("type", VString "file"); ("filename", VString "a.tgz")])
      = Return (meta, None) /\ resource.Name meta = "r".
Proof.
  destruct (ResourceFacts.ParseMeta_shapes "r")
    as (_ & _ & _ & _ & Hfilename & _ & Hgood & _).
  split.
  - apply Hfilename; [|reflexivity].
    right. exists "file". split; reflexivity.
  - apply Hgood; [|reflexivity|reflexivity].
    right. exists "file". split; reflexivity.
Defined.

(** A manifest with the bases ubuntu and plan9. *)
Lemma unknown_platform_fails_witness :
  exists err,
    ReadManifest
      (Sample.reader
         "bases: [{name: ubuntu, channel: stable}, {name: plan9, channel: stable}]")
    = Return (None, Some err).
Proof.
  destruct (ManifestFacts.unknown_platform_fails
              Sample.rawPlan9 Sample.basesPlan9 Sample.basePlan9)
    as [_ Hread].
  - reflexivity.
  - apply list_elem_of_In. simpl. tauto.
  - exists (fun k => lookupI k [(VString "name", VString "plan9");
                                (VString "channel", VString "stable")]),
           (VString "plan9").
    split_and!; try reflexivity.
    intros Hin%list_elem_of_In. simpl in Hin. intuition discriminate.
  - apply Hread; reflexivity.
Defined.

(** A container without config.yaml, and one whose config.yaml does not
    parse. *)
Lemma config_optional_witness :
  readCharmArchive_config
    (Sample.container [Sample.entry "metadata.yaml" "focal"])
    (Sample.archiveWith None) []
  = (Done (set_config (Sample.archiveWith None) (Some NewConfig)), []) /\
  readCharmArchive_optional
    (Sample.container [Sample.entry "metadata.yaml" "focal";
                       Sample.entry "config.yaml" "!"])
    (Sample.archiveWith None) []
  = (Failed (foreign "malformed document"), []).
Proof.
  split.
  - destruct (ArchiveFacts.config_optional
                (Sample.container [Sample.entry "metadata.yaml" "focal"])
                (Sample.archiveWith None) []) as (_ & Habsent & _).
    apply Habsent. intros fh Hin%list_elem_of_In. simpl in Hin.
    destruct Hin as [<-|[]]. discriminate.
  - destruct (ArchiveFacts.config_optional
                (Sample.container [Sample.entry "metadata.yaml" "focal";
                                   Sample.entry "config.yaml" "!"])
                (Sample.archiveWith None) []) as (_ & _ & Hbroken & _).
    apply (Hbroken {| rc_handle := hEntry "config.yaml";
                      rc_reader := Sample.reader "!" |}
                   [hEntry "config.yaml"] None); reflexivity.
Defined.

(** Reading a container that holds a well-formed metadata.yaml and no
    config.yaml. *)
Lemma config_default_not_reached_witness :
  let zo := Sample.opener [Sample.entry "metadata.yaml" "focal"] in
  let b := set_meta (CharmArchive_zero zo) (Some (Sample.metaOf (Some ["focal"]))) in
  readCharmArchive zo [] = (Panicked nilDereference, []) /\
  readCharmArchive_config
    (Sample.container [Sample.entry "metadata.yaml" "focal"]) b []
  = (Done (set_config b (Some NewConfig)), []).
Proof.
  intros zo b.
  apply (ArchiveFacts.config_default_not_reached zo
           (Sample.container [Sample.entry "metadata.yaml" "focal"]) b [] [] []).
  - reflexivity.
  - reflexivity.
  - intros fh Hin%list_elem_of_In. simpl in Hin. destruct Hin as [<-|[]].
    discriminate.
Defined.

End Examples.

(** * Further properties *)

(** ** Resource metadata: what [ParseMeta] reads and what validates *)

Module ResourceCoverage.

Import resource.

Section Facts.
Context `{TypeTable}.

Lemma append_cons (c : Ascii.ascii) (a b : string) :
  String c a +:+ b = String c (a +:+ b).
Proof. reflexivity. Qed.

Lemma append_nil (b : string) : "" +:+ b = b.
Proof. reflexivity. Qed.

Lemma prefix_app (a b : string) :
  String.prefix a b = true <-> exists post, b = a +:+ post.
Proof.
  revert b. induction a as [|c a IH]; intros [|d b]; simpl.
  - split; [intros _; by exists ""|done].
  - split; [intros _; by exists (String d b)|done].
  - split; [done|]. intros [post Hp]. by rewrite append_cons in Hp.
  - destruct (Ascii.ascii_dec c d) as [->|Hne].
    + rewrite IH. split; intros [post Hp]; exists post;
        rewrite append_cons in *; congruence.
    + split; [done|]. intros [post Hp]. rewrite append_cons in Hp. congruence.
Qed.

(** [strings.Contains]: the substring occurs somewhere. *)
Lemma Contains_app (s sub : string) :
  Contains s sub = true <-> exists pre post, s = pre +:+ sub +:+ post.
Proof.
  induction s as [|c s IH].
  - change (Contains "" sub) with (if String.prefix sub "" then true else false).
    destruct (String.prefix sub "") eqn:Hp.
    + apply prefix_app in Hp as [post Hp]. split; [|done].
      intros _. exists "", post. by rewrite append_nil.
    + split; [done|]. intros (pre & post & Hs).
      destruct pre; [|by rewrite append_cons in Hs]. rewrite append_nil in Hs.
      assert (String.prefix sub "" = true) by (apply prefix_app; eauto).
      congruence.
  - change (Contains (String c s) sub)
      with (if String.prefix sub (String c s) then true else Contains s sub).
    destruct (String.prefix sub (String c s)) eqn:Hp.
    + apply prefix_app in Hp as [post Hp]. split; [|done].
      intros _. exists "", post. by rewrite append_nil.
    + rewrite IH. split.
      * intros (pre & post & ->). exists (String c pre), post.
        by rewrite append_cons.
      * intros (pre & post & Hs). destruct pre as [|d pre].
        { rewrite append_nil in Hs.
          assert (String.prefix sub (String c s) = true)
            by (apply prefix_app; eauto).
          congruence. }
        rewrite append_cons in Hs. injection Hs as -> ->. by exists pre, post.
Qed.

(** X1. When [ParseMeta] returns without error on a map, the record
    holds the given name, the type [ParseType] gives for the string under
    "type" (the zero type when there is none), and the strings under
    "filename" and "comment" (empty when there are none); no other key
    of the map has any effect. *)
Theorem ParseMeta_fields (name : string) (rMap : list (string * value)) (meta : Meta) :
  ParseMeta name (VMapS rMap) = Return (meta, None) ->
  Name meta = name /\
  Type_ meta = match index rMap "type" with
               | VString s => fst (ParseType s)
               | _ => typeUnknown
               end /\
  Path meta = match index rMap "filename" with VString s => s | _ => "" end /\
  Comment meta = match index rMap "comment" with VString s => s | _ => "" end.
Proof.
  unfold ParseMeta. simpl.
  destruct (index rMap "type") as [|s| | | | |]; simpl; try done.
  - destruct (index rMap "filename"); simpl; try done;
      destruct (index rMap "comment"); simpl; try done;
      by intros [= <-].
  - destruct (ParseType s) as [t [e|]]; simpl; [done|].
    destruct (index rMap "filename"); simpl; try done;
      destruct (index rMap "comment"); simpl; try done;
      by intros [= <-].
Qed.

(** X2. A resource that [ParseMeta] returns and [Validate] accepts was
    declared with a name, with a string under "type" that names a type
    other than the zero type, and with a non-empty string under
    "filename"; in particular a resource declared with no data, or with
    no type or no filename, never validates. *)
Theorem parsed_valid_resource (name : string) (data : value) (meta : Meta) :
  ParseMeta name data = Return (meta, None) ->
  Validate meta = None ->
  name <> "" /\
  exists rMap s p,
    data = VMapS rMap /\
    index rMap "type" = VString s /\ fst (ParseType s) <> typeUnknown /\
    index rMap "filename" = VString p /\ p <> "".
Proof.
  intros Hparse Hvalid.
  assert (Name meta <> "" /\ Type_ meta <> typeUnknown /\ Path meta <> "")
    as (Hn & Ht & Hp).
  { unfold Validate in Hvalid. repeat case_decide; try done.
    all: destruct (Type_Validate _); repeat case_decide; done. }
  destruct data as [| | | | |rMap|]; try done.
  - injection Hparse as <-. by destruct Ht.
  - apply ParseMeta_fields in Hparse as (Hname & Htype & Hpath & _).
    split; [congruence|]. exists rMap.
    destruct (index rMap "type") as [|s| | | | |]; try (by rewrite Htype in Ht).
    destruct (index rMap "filename") as [|q| | | | |];
      try (by rewrite Hpath in Hp).
    exists s, q. split_and!; congruence.
Qed.

(** X3. For a named file resource with a path, [Validate] accepts the
    record exactly when the character "/" occurs nowhere in the path. *)
Theorem file_path_has_no_separator (meta : Meta) :
  Name meta <> "" -> Type_ meta = TypeFile -> TypeFile <> typeUnknown ->
  Type_Validate TypeFile = None -> Path meta <> "" ->
  Validate meta = None <->
  forall pre post, Path meta <> pre +:+ "/" +:+ post.
Proof.
  intros Hn Ht Hfile Hvalid Hp. unfold Validate.
  rewrite Ht, Hvalid. rewrite !decide_False by done.
  rewrite decide_True by done.
  destruct (Contains (Path meta) "/") eqn:Hc.
  - split; [done|]. intros Hno.
    apply Contains_app in Hc as (pre & post & Hs). by destruct (Hno pre post).
  - split; [|done]. intros _ pre post Hs.
    assert (Contains (Path meta) "/" = true) by (apply Contains_app; eauto).
    congruence.
Qed.

End Facts.

End ResourceCoverage.

(** ** The manifest: what a successful parse holds *)

Module ManifestCoverage.

Import systems charm.

Section Facts.
Context `{Platforms} `{yaml.Decoder}.

Lemma Validate_range_None (bases : list Base) :
  Validate_range bases = None <-> Forall (fun b => Base_Validate b = None) bases.
Proof.
  induction bases as [|b bases IH]; simpl.
  - split; [constructor|done].
  - rewrite Forall_cons. destruct (Base_Validate b).
    + split; [done|]. by intros [? _].
    + rewrite IH. split; [done|]. by intros [_ ?].
Qed.

(** X4. [Manifest.Validate] succeeds exactly when every base passes
    [Base.Validate]; when it fails, its error is always the same fixed
    message, whichever base failed and whatever the error of that base
    was. *)
Theorem Manifest_Validate_iff (m : Manifest) :
  (Validate m = None <->
   Forall (fun b => Base_Validate b = None) (elems (Bases m))) /\
  (Validate m = None \/
   Validate m = Some (errorString "invalid base: empty file")).
Proof.
  unfold Validate. split; [apply Validate_range_None|].
  induction (elems (Bases m)) as [|b bases IH]; simpl; [by left|].
  destruct (Base_Validate b); [by right|done].
Qed.

(** One step of the loop of [parseBases] that goes on to the next
    element appends a base built from the element. *)
Lemma parseBases_range_built (input : list value) (res bases : slice Base) :
  parseBases_range input res = Return (bases, None) ->
  exists bs, elems bases = elems res ++ bs /\ Forall2 builtFrom input bs.
Proof.
  revert res. induction input as [|v input IH]; intros res Hrun; simpl in Hrun.
  - simplify_eq. exists []. by rewrite app_nil_r.
  - destruct v as [| | | | |baseMap|]; try done. simpl in Hrun.
    assert (forall (base : Base),
              builtFrom (VMapS baseMap) base ->
              parseBases_range input (append res base) = Return (bases, None) ->
              exists bs, elems bases = elems res ++ bs /\
                         Forall2 builtFrom (VMapS baseMap :: input) bs) as Hstep.
    { intros base Hb Hrest. apply IH in Hrest as (bs & Hel & Hall).
      exists (base :: bs). rewrite Hel, elems_append, <- app_assoc.
      split; [done|]. by constructor. }
    destruct (lookupS "name" baseMap) as [nv|] eqn:Hn; simpl in Hrun.
    + destruct nv as [|name| | | | |]; try done. simpl in Hrun.
      destruct (lookupS "channel" baseMap) as [cv|] eqn:Hc; simpl in Hrun.
      * destruct cv as [|ch| | | | |]; try done. simpl in Hrun.
        destruct (channel_Parse ch) as [c [e|]] eqn:Hp; simpl in Hrun; [done|].
        destruct (Base_Validate _) eqn:Hv; [done|].
        eapply Hstep; [|done]. exists baseMap. by rewrite Hn, Hc.
      * destruct (Base_Validate _) eqn:Hv; [done|].
        eapply Hstep; [|done]. exists baseMap. by rewrite Hn, Hc.
    + destruct (lookupS "channel" baseMap) as [cv|] eqn:Hc; simpl in Hrun.
      * destruct cv as [|ch| | | | |]; try done. simpl in Hrun.
        destruct (channel_Parse ch) as [c [e|]] eqn:Hp; simpl in Hrun; [done|].
        destruct (Base_Validate _) eqn:Hv; [done|].
        eapply Hstep; [|done]. exists baseMap. by rewrite Hn, Hc.
      * destruct (Base_Validate _) eqn:Hv; [done|].
        eapply Hstep; [|done]. exists baseMap. by rewrite Hn, Hc.
Qed.

(** X5. When [parseBases] succeeds on a list, its result holds one base
    per element, in the order of the list; each base has the name and
    the parsed channel of its element and passed [Base.Validate]. *)
Theorem parseBases_success (input : list value) (bases : slice Base) :
  parseBases (VList input) = Return (bases, None) ->
  Forall2 builtFrom input (elems bases).
Proof.
  intros Hrun. simpl in Hrun.
  by apply parseBases_range_built in Hrun as (bs & -> & Hall).
Qed.

Lemma parseBases_range_error (input : list value) (res bases : slice Base)
    (err : error) :
  parseBases_range input res = Return (bases, Some err) -> bases = None.
Proof.
  revert res. induction input as [|v input IH]; intros res Hrun; simpl in Hrun.
  - by simplify_eq.
  - destruct (assertMapS v) as [baseMap|]; [|done]. simpl in Hrun.
    destruct (lookupS "name" baseMap) as [nv|]; simpl in Hrun.
    + destruct (assertString nv) as [name|]; [|done]. simpl in Hrun.
      destruct (lookupS "channel" baseMap) as [cv|]; simpl in Hrun.
      * destruct (assertString cv) as [ch|]; [|done]. simpl in Hrun.
        destruct (channel_Parse ch) as [c [e|]]; simpl in Hrun;
          [by simplify_eq|].
        destruct (Base_Validate _); [by simplify_eq|]. by eapply IH.
      * destruct (Base_Validate _); [by simplify_eq|]. by eapply IH.
    + destruct (lookupS "channel" baseMap) as [cv|]; simpl in Hrun.
      * destruct (assertString cv) as [ch|]; [|done]. simpl in Hrun.
        destruct (channel_Parse ch) as [c [e|]]; simpl in Hrun;
          [by simplify_eq|].
        destruct (Base_Validate _); [by simplify_eq|]. by eapply IH.
      * destruct (Base_Validate _); [by simplify_eq|]. by eapply IH.
Qed.

(** X6. An error comes without a value at every level of the manifest
    parser: [parseBases] returns the nil slice with it, [UnmarshalYAML]
    leaves the receiver as it was, and [ReadManifest] returns no
    manifest. *)
Theorem manifest_error_without_value :
  (forall input bases err,
     parseBases input = Return (bases, Some err) -> bases = None) /\
  (forall m f m' err,
     UnmarshalYAML m f = Return (m', Some err) -> m' = m) /\
  (forall r mo err,
     ReadManifest r = Return (mo, Some err) -> mo = None).
Proof.
  split_and!.
  - intros input bases err. unfold parseBases.
    destruct input; simpl; try done. apply parseBases_range_error.
  - intros m f m' err. unfold UnmarshalYAML.
    destruct (f []) as [raw [e|]]; [by intros [= <-]|].
    destruct (schema.Coerce _ _ _) as [v [e|]]; [by intros [= <-]|].
    destruct v; simpl; try by intros [= <-].
    destruct (parseBases_range l None) as [[bases [e|]]|]; simpl;
      try done; by intros [= <-].
  - intros r mo err. unfold ReadManifest, io.ReadAll.
    destruct (io.readErr r); [by intros [= <-]|].
    destruct (Unmarshal (io.data r)) as [[mo' [e|]]|]; simpl; try done.
    + by intros [= <-].
    + destruct mo'; simpl; [done|by intros [= <-]].
Qed.

(** X7. A manifest that [ReadManifest] returns passes
    [Manifest.Validate]: every base in it was validated when it was
    parsed. *)
Theorem ReadManifest_validates (r : io.Reader) (m : Manifest) (err : option error) :
  ReadManifest r = Return (Some m, err) -> Validate m = None.
Proof.
  intros (-> & v & _ & Hu)%ManifestFacts.ReadManifest_Some.
  apply ManifestFacts.UnmarshalYAML_result in Hu
    as [->|(newV & bases & Hp & ->)]; [done|].
  simpl in Hp. apply parseBases_range_built in Hp as (bs & Hel & Hall).
  apply Validate_range_None. simpl. rewrite Hel. simpl. clear Hel.
  induction Hall as [|v' b l l' (baseMap & _ & _ & _ & Hv) _ IH];
    by constructor.
Qed.

(** *** After the coercion *)

(** The coercion of a name gives one of the platform names. *)
Lemma Coerce_name_shape (nv w : value) (path : list string) :
  schema.Coerce
    (schema.OneOf [schema.Const Ubuntu; schema.Const Windows;
                   schema.Const CentOS; schema.Const OpenSUSE;
                   schema.Const GenericLinux; schema.Const OSX]) nv path
    = (w, None) ->
  exists s, w = VString s /\ VString s ∈ platformNames.
Proof.
  unfold platformNames. simpl. destruct nv as [|s| | | | |]; try done.
  repeat match goal with
         | |- context [String.eqb s ?k] =>
             destruct (String.eqb_spec s k) as [->|_]; simpl;
             [intros [= <-]; eexists; split; [done|];
              apply list_elem_of_In; simpl; tauto|]
         end.
  done.
Qed.

Lemma Coerce_channel_shape (cv w : value) (path : list string) :
  schema.Coerce schema.String_ cv path = (w, None) -> exists s, w = VString s.
Proof. simpl. destruct cv; try done. intros [= <-]. eauto. Qed.

(** The coercion by [baseSchema] gives records of the expected shape. *)
Lemma Coerce_baseSchema_shape (e v : value) (path : list string) :
  schema.Coerce baseSchema e path = (v, None) -> coercedBase v.
Proof.
  unfold baseSchema, coercedBase. cbn [schema.Coerce].
  destruct (schema.mapIndex e) as [get|]; [|done].
  cbn [schema.FieldMap_range].
  destruct (get "name") as [nv|], (get "channel") as [cv|];
    rewrite ?bool_decide_eq_true_2 by (apply list_elem_of_In; simpl; tauto).
  - destruct (schema.Coerce (schema.OneOf _) nv _) as [w [err|]] eqn:Hn; [done|].
    apply Coerce_name_shape in Hn as (s & -> & Hs).
    destruct (schema.Coerce schema.String_ cv _) as [w [err|]] eqn:Hc; [done|].
    apply Coerce_channel_shape in Hc as (c & ->). intros [= <-].
    eexists. split; [done|]. split; [right|right]; eauto.
  - destruct (schema.Coerce (schema.OneOf _) nv _) as [w [err|]] eqn:Hn; [done|].
    apply Coerce_name_shape in Hn as (s & -> & Hs).
    intros [= <-]. eexists. split; [done|]. split; [right; eauto|by left].
  - destruct (schema.Coerce schema.String_ cv _) as [w [err|]] eqn:Hc; [done|].
    apply Coerce_channel_shape in Hc as (c & ->). intros [= <-].
    eexists. split; [done|]. split; [by left|right; eauto].
  - intros [= <-]. eexists. split; [done|]. split; by left.
Qed.

(** What [List] gives when it succeeds: the results of its elements. *)
Lemma List_range_shape coerce (path : list string) (l : list value) (i : nat)
    (out : list value) (v : value) :
  schema.List_range coerce path l i out = (v, None) ->
  exists l', v = VList (out ++ l') /\
             Forall2 (fun x y => exists p, coerce x p = (y, None)) l l'.
Proof.
  revert i out. induction l as [|x l IH]; intros i out; simpl.
  - intros [= <-]. exists []. by rewrite app_nil_r.
  - destruct (coerce x _) as [y [err|]] eqn:Hx; [done|].
    intros (l' & -> & Hall)%IH. exists (y :: l').
    rewrite <- app_assoc. split; [done|]. constructor; eauto.
Qed.

(** The list that [UnmarshalYAML] hands to [parseBases]. *)
Lemma coerced_list (raw : value) (v : value) :
  schema.Coerce (schema.List baseSchema) raw [] = (v, None) ->
  exists l, v = VList l /\ Forall coercedBase l.
Proof.
  cbn [schema.Coerce]. destruct raw; try done.
  intros (l' & -> & Hall)%List_range_shape. exists l'. split; [done|].
  induction Hall as [|x y l1 l2 [p Hp] _ IH]; constructor; [|done].
  by eapply Coerce_baseSchema_shape.
Qed.

(** On coerced records no type assertion of the loop can fail. *)
Lemma parseBases_range_returns (l : list value) (res : slice Base) :
  Forall coercedBase l -> exists r, parseBases_range l res = Return r.
Proof.
  intros Hall. revert res.
  induction Hall as [|v l (out & -> & Hn & Hc) _ IH]; intros res; simpl.
  - eauto.
  - destruct Hn as [->|(name & -> & _)], Hc as [->|(ch & ->)]; simpl.
    + destruct (Base_Validate _); eauto.
    + destruct (channel_Parse ch) as [c [e|]]; simpl; eauto.
      destruct (Base_Validate _); eauto.
    + destruct (Base_Validate _); eauto.
    + destruct (channel_Parse ch) as [c [e|]]; simpl; eauto.
      destruct (Base_Validate _); eauto.
Qed.

(** X8. [UnmarshalYAML] and [ReadManifest] never fault: whatever the
    document holds, the type assertions of [parseBases] are applied only
    to what the coercion by [baseSchema] let through, and they hold
    there. *)
Theorem manifest_parse_never_faults :
  (forall m f, exists m' err, UnmarshalYAML m f = Return (m', err)) /\
  (forall r, exists mo err, ReadManifest r = Return (mo, err)).
Proof.
  assert (forall m f, exists m' err, UnmarshalYAML m f = Return (m', err))
    as Hum.
  { intros m f. unfold UnmarshalYAML.
    destruct (f []) as [raw [e|]]; [eauto|].
    destruct (schema.Coerce _ _ _) as [v [e|]] eqn:Hco; [eauto|].
    apply coerced_list in Hco as (l & -> & Hall). simpl.
    destruct (parseBases_range_returns l None Hall) as [[bases [e|]] ->];
      simpl; eauto. }
  split; [done|].
  intros r. unfold ReadManifest, io.ReadAll, Unmarshal.
  destruct (io.readErr r); [eauto|].
  destruct (yaml.parse (io.data r)) as [e| |v]; simpl; eauto.
  destruct (Hum NewManifest (yaml.decodeInto v)) as (m' & [e|] & ->);
    simpl; eauto.
Qed.

Lemma built_known (v : value) (b : Base) :
  coercedBase v -> builtFrom v b -> knownName b.
Proof.
  intros (out & -> & Hn & _) (baseMap & [= <-] & Hname & _).
  unfold knownName. rewrite Hname.
  destruct Hn as [->|(s & -> & Hs)]; [by left|by right].
Qed.

Lemma parseBases_range_known (l : list value) (res bases : slice Base) :
  Forall coercedBase l -> Forall knownName (elems res) ->
  parseBases_range l res = Return (bases, None) ->
  Forall knownName (elems bases).
Proof.
  intros Hall Hres Hrun.
  apply parseBases_range_built in Hrun as (bs & -> & Hbuilt).
  apply Forall_app. split; [done|]. clear Hres.
  revert Hall. induction Hbuilt as [|v b l bs Hvb _ IH]; intros Hall;
    [constructor|].
  apply Forall_cons in Hall as [Hv Hall].
  constructor; [by eapply built_known|by apply IH].
Qed.

(** X9. Every base of a manifest that [ReadManifest] returns has no name
    or one of the six platform names. *)
Theorem parsed_names_are_known (r : io.Reader) (m : Manifest) (err : option error) :
  ReadManifest r = Return (Some m, err) ->
  Forall knownName (elems (Bases m)).
Proof.
  intros (-> & v & _ & Hu)%ManifestFacts.ReadManifest_Some.
  unfold UnmarshalYAML in Hu.
  destruct (yaml.decodeInto v []) as [raw [e|]]; [done|].
  destruct (schema.Coerce _ _ _) as [w [e|]] eqn:Hco; [done|].
  apply coerced_list in Hco as (l & -> & Hall). simpl in Hu.
  destruct (parseBases_range l None) as [[bases [e|]]|] eqn:Hp;
    simpl in Hu; try done.
  injection Hu as <-. simpl.
  apply (parseBases_range_known l None bases Hall); [|done].
  apply Forall_nil_2.
Qed.

(** X10. A mapping without a "bases" key, or with one that is not a
    sequence, is an error of the coercion and not an empty manifest. *)
Theorem bases_must_be_a_list (m : Manifest) f (raw : list (value * value)) :
  f [] = (raw, None) ->
  (forall l, lookupI "bases" raw <> Some (VList l)) ->
  UnmarshalYAML m f
    = Return (m, Some (annotated "coerce" (schemaError "list" []))).
Proof.
  intros Hf Hno. unfold UnmarshalYAML. rewrite Hf. simpl.
  destruct (lookupI "bases" raw) as [[]|]; simpl; try done.
  by destruct (Hno l).
Qed.

End Facts.

End ManifestCoverage.

(** ** Series: how the functions compose *)

Module CharmCoverage.

Import systems charm.

Section Facts.
Context `{Platforms} `{yaml.Decoder} `{Documents} `{FileSystem}.

(** X11. A series that [SeriesForCharm] returns without error is the
    request itself when the charm supports nothing, and one of the
    supported series otherwise; asking for it again gives it back. *)
Theorem SeriesForCharm_stable (requested series : string) (supported : slice string) :
  SeriesForCharm requested supported = (series, None) ->
  (len supported = 0 -> series = requested) /\
  (len supported <> 0 -> series ∈ elems supported) /\
  SeriesForCharm series supported = (series, None).
Proof.
  unfold SeriesForCharm. unfold len.
  destruct (elems supported) as [|first rest] eqn:Hel; simpl.
  - destruct (decide (requested = "")) as [->|Hne]; [done|].
    intros [= <-]. split_and!; try done. by rewrite decide_False.
  - destruct (decide (requested = "")) as [->|Hne].
    + intros [= <-]. split_and!; [done|by left|].
      destruct (decide (first = "")) as [->|Hf]; [done|].
      by rewrite decide_True.
    + destruct (decide (first = requested)) as [->|Hf].
      * intros [= <-]. split_and!; [done|by left|].
        rewrite decide_False by done. by rewrite decide_True.
      * destruct (SeriesForCharm_range requested rest) eqn:Hloop; [|done].
        intros [= <-]. split_and!; [done| |].
        { right. by apply CharmFacts.SeriesForCharm_range_true. }
        rewrite !decide_False by done. by rewrite Hloop.
Qed.

(** X12. An error of [SeriesForCharm] comes with the empty string and is
    of one of two kinds, which the two predicates tell apart: the
    missing-series error, exactly for an empty request against an empty
    list, and the unsupported-series error, exactly for a request that
    is not in a non-empty list. *)
Theorem SeriesForCharm_errors (requested series : string) (supported : slice string)
    (err : error) :
  SeriesForCharm requested supported = (series, Some err) ->
  series = "" /\
  ((err = errMissingSeries /\ requested = "" /\ len supported = 0 /\
    IsMissingSeriesError (Some err) = true /\
    IsUnsupportedSeriesError (Some err) = false) \/
   (err = unsupportedSeriesError requested supported /\ requested <> "" /\
    len supported <> 0 /\ (requested ∉ elems supported) /\
    IsMissingSeriesError (Some err) = false /\
    IsUnsupportedSeriesError (Some err) = true)).
Proof.
  unfold SeriesForCharm.
  destruct (decide (len supported = 0)) as [Hl|Hl].
  - destruct (decide (requested = "")) as [->|Hne]; [|done].
    intros [= <- <-]. split; [done|]. left. by split_and!.
  - destruct (decide (requested = "")) as [->|Hne]; [done|].
    destruct (SeriesForCharm_range _ _) eqn:Hloop; [done|].
    intros [= <- <-]. split; [done|]. right. split_and!; try done.
    intros Hin%CharmFacts.SeriesForCharm_range_true. congruence.
Qed.

(** With nothing seen so far, the result of the loop for distinct
    strings is the list of the strings. *)
Lemma range_distinct (l : list Base) (sl : slice string) (set : gset string) :
  tracks sl set ->
  NoDup (elems sl ++ (Base_String <$> l)) ->
  elems (ComputedSeries_range l sl set) = elems sl ++ (Base_String <$> l).
Proof.
  revert sl set. induction l as [|b l IH]; intros sl set Ht Hnd; simpl.
  - by rewrite app_nil_r.
  - rewrite decide_False.
    2:{ rewrite Ht, elem_of_list_to_set. apply NoDup_app in Hnd as (_ & Hd & _).
        intros Hin. apply (Hd _ Hin). by left. }
    rewrite IH.
    + by rewrite elems_append, <- app_assoc.
    + by apply CharmFacts.tracks_append.
    + by rewrite elems_append, <- app_assoc.
Qed.

(** X13. The V2 result of [ComputedSeries] is never longer than the list
    of bases, and it is the list of their strings exactly when these
    strings are pairwise distinct. *)
Theorem ComputedSeries_distinct (bases : list Base) :
  let r := elems (ComputedSeries_range bases None ∅) in
  length r <= length bases /\
  (r = (Base_String <$> bases) <-> NoDup (Base_String <$> bases)).
Proof.
  intros r. destruct (CharmFacts.range_from_nil bases) as (Hnd & Hsub & _).
  fold r in Hnd, Hsub. split.
  - apply sublist_length in Hsub. by rewrite length_fmap in Hsub.
  - split; [by intros <-|]. intros Hd.
    by apply (range_distinct bases None ∅ CharmFacts.tracks_nil).
Qed.

(** X14. [SeriesForCharm] against the V2 result of [ComputedSeries]: the
    empty request gives the string of the first base, and the string of
    any declared base, when it is not empty, is accepted as it is. *)
Theorem declared_bases_are_supported (first : Base) (rest : list Base) :
  let supported := ComputedSeries_range (first :: rest) None ∅ in
  SeriesForCharm "" supported = (Base_String first, None) /\
  (forall b, b ∈ first :: rest -> Base_String b <> "" ->
     SeriesForCharm (Base_String b) supported = (Base_String b, None)).
Proof.
  intros supported.
  destruct (CharmFacts.range_first_occurrence [] rest first) as [tail Hel].
  { by intros ?%elem_of_nil. }
  change (elems supported = [] ++ Base_String first :: tail) in Hel.
  rewrite app_nil_l in Hel.
  assert (len supported <> 0) as Hlen by (unfold len; by rewrite Hel).
  unfold SeriesForCharm. split.
  - rewrite decide_False, decide_True by done. by rewrite Hel.
  - intros b Hb Hne. rewrite !decide_False by done.
    destruct (CharmFacts.range_from_nil (first :: rest)) as (_ & _ & Hin).
    fold supported in Hin.
    assert (SeriesForCharm_range (Base_String b) (elems supported) = true)
      as ->; [|done].
    apply CharmFacts.SeriesForCharm_range_true, Hin.
    by apply list_elem_of_fmap_2.
Qed.

(** X15. [CharmArchive.ComputedSeries] on an archive and
    [ComputedSeries] on a charm whose [Meta()] and [Manifest()] return
    the metadata and the manifest that the archive holds give the same
    result, unless the bases of the manifest are an empty slice that is
    not nil: there the method of the archive returns the nil slice and
    the function on the interface returns the series of the metadata. *)
Theorem ComputedSeries_agree (a : CharmArchive) (c : Charm) (m : Manifest)
    (mt : Meta) :
  manifest a = Some m -> meta a = Some mt ->
  Charm_Manifest c = Some m -> Charm_Meta c = Some mt ->
  (Bases m <> Some [] -> CharmArchive_ComputedSeries a = ComputedSeries c) /\
  (Bases m = Some [] ->
     CharmArchive_ComputedSeries a = Return None /\
     ComputedSeries c = Return (Series mt)).
Proof.
  intros Hm Hmt Hcm Hcmt.
  unfold CharmArchive_ComputedSeries, ComputedSeries, CharmArchive_Format.
  rewrite Hm, Hmt, Hcm, Hcmt. simpl.
  destruct (Bases m) as [[|b bs]|]; simpl; split; done.
Qed.

End Facts.

End CharmCoverage.

(** ** The archive: containers, optional entries, expansion *)

Module ArchiveCoverage.

Import systems charm.

Section Facts.
Context `{Platforms} `{yaml.Decoder} `{Documents} `{FileSystem}.

Ltac proc_simpl :=
  unfold mbind, proc_bind, mret, proc_ret, fail, check, attempt, lift,
         opened, closed, defer, Close, zipReadCloser_Close in *.

(** The entries before the first one of the given name are passed
    over. *)
Lemma zipOpenFile_range_skip (pre rest : list zipFile) (path : string) :
  (forall f, f ∈ pre -> zName f <> path) ->
  zipOpenFile_range (pre ++ rest) path = zipOpenFile_range rest path.
Proof.
  induction pre as [|f pre IH]; intros Hpre; simpl; [done|].
  rewrite decide_False by (apply Hpre; by left).
  apply IH. intros f' Hin. apply Hpre. by right.
Qed.

(** A reader that [zipOpenFile] returns is on the entry of the name
    asked for, and its handle is the one that was opened. *)
Lemma zipOpenFile_handle (zipr : zipReadCloser) (path : string)
    (w w' : list handle) (reader : ReadCloser) :
  zipOpenFile zipr path w = (Done reader, w') ->
  rc_handle reader = hEntry path /\ w' = hEntry path :: w.
Proof.
  unfold zipOpenFile. induction (File zipr) as [|fh files IH]; simpl; [done|].
  case_decide as Hname; [|done]. unfold zipFile_Open.
  destruct (zOpen fh) as [r [e|]]; proc_simpl; simpl; [done|].
  intros [= <- <-]. by rewrite Hname.
Qed.

(** X16. [zipOpenFile] stops at the first entry that has the name: it
    returns what opening that entry gives, a reader with one more handle
    open, or the error of the entry as it is with nothing opened.
    Entries after it, of the same name or not, are not looked at. *)
Theorem zipOpenFile_first_match (zipr : zipReadCloser) (path : string)
    (pre post : list zipFile) (fh : zipFile) (w : list handle) :
  File zipr = pre ++ fh :: post ->
  (forall f, f ∈ pre -> zName f <> path) ->
  zName fh = path ->
  zipOpenFile zipr path w
  = match zOpen fh with
    | (r, None) => (Done {| rc_handle := hEntry path; rc_reader := r |},
                    hEntry path :: w)
    | (_, Some err) => (Failed err, w)
    end.
Proof.
  intros Hfiles Hpre Hname. unfold zipOpenFile.
  rewrite Hfiles, zipOpenFile_range_skip by done. simpl.
  rewrite decide_True by done. unfold zipFile_Open.
  destruct (zOpen fh) as [r [e|]]; proc_simpl; simpl; [done|].
  by rewrite Hname.
Qed.

(** Closing a container releases the handle its closer holds. *)
Lemma Close_releases (zipr : zipReadCloser) (w : list handle) :
  zipReadCloser_Close zipr
    (match Closer zipr with Some h => h :: w | None => w end)
  = (Done tt, w).
Proof.
  unfold zipReadCloser_Close, closed.
  destruct (Closer zipr); simpl; [by rewrite decide_True|done].
Qed.

(** X17. Opening a container and closing it leaves the open handles as
    they were. A container opened from a path holds the handle of the
    file as its closer, one opened from a reader holds none. When
    [openZip] fails nothing stays open: the file is closed again when
    [Stat] or the ZIP reader fails. [openZip] does not fault. *)
Theorem openZip_then_Close (zo : zipOpener) (w : list handle) :
  (forall zipr w', openZip zo w = (Done zipr, w') ->
     zipReadCloser_Close zipr w' = (Done tt, w) /\
     Closer zipr = match zo with
                   | zipPathOpener path => Some (hFile path)
                   | zipReaderOpener _ _ => None
                   end) /\
  (forall err w', openZip zo w = (Failed err, w') -> w' = w) /\
  (forall p, fst (openZip zo w) <> Panicked p).
Proof.
  destruct zo as [path|r size]; unfold openZip; proc_simpl.
  - destruct (os_Open path) as [e|].
    { split_and!; [done| |done]. by intros err w' [= _ <-]. }
    destruct (File_Stat path) as [size [e|]].
    { simpl. rewrite decide_True by done. split_and!; [done| |done].
      by intros err w' [= _ <-]. }
    destruct (zip_NewReader (inr path) size) as [files [e|]].
    { simpl. rewrite decide_True by done. split_and!; [done| |done].
      by intros err w' [= _ <-]. }
    split_and!; [|done|done].
    intros zipr w' [= <- <-]. simpl. unfold closed. simpl.
    by rewrite decide_True.
  - destruct (zip_NewReader (inl r) size) as [files [e|]].
    { split_and!; [done| |done]. by intros err w' [= _ <-]. }
    split_and!; [|done|done].
    by intros zipr w' [= <- <-].
Qed.

(** X18. [getActions] opens "actions.yaml" and nothing else. With a
    reader it returns what [ReadActionsYaml] gives and closes the
    reader, whether the parse succeeds or fails; with an error that the
    caller's test takes for not-found it returns the default actions;
    with any other error it returns that error. *)
Theorem getActions_cases (open : string -> proc ReadCloser)
    (isNotFound : error -> bool) (w : list handle) :
  (forall reader w', open "actions.yaml" w = (Done reader, w') ->
     getActions open isNotFound w
     = (match ReadActionsYaml (rc_reader reader) with
        | (actions, None) => Done actions
        | (_, Some err) => Failed err
        end, release (rc_handle reader) w')) /\
  (forall err w', open "actions.yaml" w = (Failed err, w') ->
     getActions open isNotFound w
     = (if isNotFound err then Done (Some NewActions) else Failed err, w')) /\
  (forall open', open' "actions.yaml" = open "actions.yaml" ->
     getActions open' isNotFound = getActions open isNotFound).
Proof.
  unfold getActions. split_and!.
  - intros reader w' Hopen. proc_simpl. rewrite Hopen.
    by destruct (ReadActionsYaml _) as [a [e|]].
  - intros err w' Hopen. proc_simpl. rewrite Hopen.
    by destruct (isNotFound err).
  - by intros open' ->.
Qed.

(** X19. A container that holds none of the optional entries: the
    optional blocks store the default configuration, the default actions
    and the default LXD profile, leave the metrics, the revision and the
    version as they were, and leave no handle open. *)
Theorem optional_entries_absent (zipr : zipReadCloser) (b : CharmArchive)
    (w : list handle) :
  (forall fh, fh ∈ File zipr -> zName fh ∉ optionalEntries) ->
  readCharmArchive_optional zipr b w
  = (Done (set_lxdProfile
             (set_actions (set_config b (Some NewConfig)) (Some NewActions))
             (Some NewLXDProfile)), w).
Proof.
  intros Hnone.
  assert (forall path w', path ∈ optionalEntries ->
            zipOpenFile zipr path w' = (Failed (noCharmArchiveFile path), w'))
    as Habsent.
  { intros path w' Hin. apply ArchiveFacts.zipOpenFile_absent.
    intros fh Hfh Heq. apply (Hnone fh Hfh). by rewrite Heq. }
  assert (forall path, In path optionalEntries -> path ∈ optionalEntries) as Hin.
  { intros path. apply list_elem_of_In. }
  unfold readCharmArchive_optional, readCharmArchive_after_config,
    readCharmArchive_config, readCharmArchive_metrics,
    readCharmArchive_actions, getActions, readCharmArchive_revision,
    readCharmArchive_lxdProfile, readCharmArchive_version.
  proc_simpl.
  repeat (rewrite Habsent by (apply Hin; simpl; tauto); simpl). done.
Qed.

(** X20. For every optional entry: when the lookup fails with an error
    that is not the not-found error, the block returns that error as it
    is, and so the read ends. *)
Theorem unopenable_entry_is_fatal (zipr : zipReadCloser) (b : CharmArchive)
    (w w' : list handle) (err : error) :
  isNoCharmArchiveFile err = false ->
  (zipOpenFile zipr "config.yaml" w = (Failed err, w') ->
     readCharmArchive_config zipr b w = (Failed err, w')) /\
  (zipOpenFile zipr "metrics.yaml" w = (Failed err, w') ->
     readCharmArchive_metrics zipr b w = (Failed err, w')) /\
  (zipOpenFile zipr "actions.yaml" w = (Failed err, w') ->
     readCharmArchive_actions zipr b w = (Failed err, w')) /\
  (zipOpenFile zipr "revision" w = (Failed err, w') ->
     readCharmArchive_revision zipr b w = (Failed err, w')) /\
  (zipOpenFile zipr "lxd-profile.yaml" w = (Failed err, w') ->
     readCharmArchive_lxdProfile zipr b w = (Failed err, w')) /\
  (zipOpenFile zipr "version" w = (Failed err, w') ->
     readCharmArchive_version zipr b w = (Failed err, w')).
Proof.
  intros Hkind.
  unfold readCharmArchive_config, readCharmArchive_metrics,
    readCharmArchive_actions, getActions, readCharmArchive_revision,
    readCharmArchive_lxdProfile, readCharmArchive_version.
  proc_simpl. split_and!; intros ->; by rewrite Hkind.
Qed.

(** X21. An optional entry that opens and does not parse: the blocks of
    "metrics.yaml", "actions.yaml", "lxd-profile.yaml" and "version"
    close the reader and return the error of the parser as it is. *)
Theorem malformed_entry_is_fatal (zipr : zipReadCloser) (b : CharmArchive)
    (w w' : list handle) (reader : ReadCloser) (err : error) :
  (forall m, zipOpenFile zipr "metrics.yaml" w = (Done reader, w') ->
     ReadMetrics (rc_reader reader) = (m, Some err) ->
     readCharmArchive_metrics zipr b w = (Failed err, w)) /\
  (forall a, zipOpenFile zipr "actions.yaml" w = (Done reader, w') ->
     ReadActionsYaml (rc_reader reader) = (a, Some err) ->
     readCharmArchive_actions zipr b w = (Failed err, w)) /\
  (forall p, zipOpenFile zipr "lxd-profile.yaml" w = (Done reader, w') ->
     ReadLXDProfile (rc_reader reader) = (p, Some err) ->
     readCharmArchive_lxdProfile zipr b w = (Failed err, w)) /\
  (forall v, zipOpenFile zipr "version" w = (Done reader, w') ->
     ReadVersion (rc_reader reader) = (v, Some err) ->
     readCharmArchive_version zipr b w = (Failed err, w)).
Proof.
  unfold readCharmArchive_metrics, readCharmArchive_actions, getActions,
    readCharmArchive_lxdProfile, readCharmArchive_version.
  split_and!; intros x Hopen Hread;
    pose proof Hopen as [Hh ->]%zipOpenFile_handle;
    proc_simpl; rewrite Hopen, ?Hread; simpl; rewrite ?Hread, Hh; simpl;
    done.
Qed.

(** *** What the optional blocks keep *)

Lemma sameSource_refl (b : CharmArchive) : sameSource b b.
Proof. by unfold sameSource. Qed.

Lemma sameSource_trans (a b c : CharmArchive) :
  sameSource a b -> sameSource b c -> sameSource a c.
Proof.
  unfold sameSource. intros (-> & -> & -> & ->) (-> & -> & -> & ->). done.
Qed.

(** Two blocks in sequence, one of which leaves nothing open. *)
Lemma keepsSource_bind (f g : CharmArchive -> proc CharmArchive)
    (e1 e2 : list handle) :
  keepsSource f e1 -> keepsSource g e2 -> e1 = [] \/ e2 = [] ->
  keepsSource (fun b => b' ← f b; g b') (e2 ++ e1).
Proof.
  intros Hf Hg He b w. unfold mbind, proc_bind.
  destruct (Hf b w) as [Hw1 Hb1].
  destruct (f b w) as [[b1|e|p] w1]; simpl in *.
  - destruct (Hg b1 w1) as [Hw2 Hb2].
    specialize (Hb1 b1 eq_refl). split.
    + destruct He as [->| ->]; rewrite ?app_nil_r, ?app_nil_l in *; simpl in *.
      * destruct Hw1 as [->| ->]; done.
      * destruct Hw2 as [->| ->]; done.
    + intros b' Hb'. eapply sameSource_trans; [done|]. by apply Hb2.
  - split; [|done]. destruct He as [->| ->];
      rewrite ?app_nil_r, ?app_nil_l in *; simpl in *; [|done].
    destruct Hw1 as [->| ->]; by left.
  - split; [|done]. destruct He as [->| ->];
      rewrite ?app_nil_r, ?app_nil_l in *; simpl in *; [|done].
    destruct Hw1 as [->| ->]; by left.
Qed.

Lemma keepsSource_ext (f g : CharmArchive -> proc CharmArchive)
    (extra : list handle) :
  (forall b w, f b w = g b w) -> keepsSource f extra -> keepsSource g extra.
Proof. intros Heq Hf b w. rewrite <- Heq. apply Hf. Qed.

(** The blocks other than that of "revision". *)
Lemma closing_blocks_keep (zipr : zipReadCloser) :
  keepsSource (readCharmArchive_config zipr) [] /\
  keepsSource (readCharmArchive_metrics zipr) [] /\
  keepsSource (readCharmArchive_actions zipr) [] /\
  keepsSource (readCharmArchive_lxdProfile zipr) [] /\
  keepsSource (readCharmArchive_version zipr) [].
Proof.
  split_and!; intros b w;
    destruct (ArchiveFacts.sibling_blocks_close zipr b w)
      as (_ & Hc & Hm & Ha & Hl & Hv);
    (split; [by left|]).
  - unfold readCharmArchive_config. proc_simpl.
    destruct (zipOpenFile zipr "config.yaml" w) as [[rd|e|p] w1]; simpl.
    + destruct (ReadConfig _) as [c [e|]]; simpl; [done|].
      by intros b' [= <-].
    + destruct (isNoCharmArchiveFile e); [|done]. by intros b' [= <-].
    + done.
  - unfold readCharmArchive_metrics. proc_simpl.
    destruct (zipOpenFile zipr "metrics.yaml" w) as [[rd|e|p] w1]; simpl.
    + destruct (ReadMetrics _) as [c [e|]]; simpl; [done|].
      by intros b' [= <-].
    + destruct (isNoCharmArchiveFile e); [|done]. intros b' [= <-].
      apply sameSource_refl.
    + done.
  - unfold readCharmArchive_actions, getActions. proc_simpl.
    destruct (zipOpenFile zipr "actions.yaml" w) as [[rd|e|p] w1]; simpl.
    + destruct (ReadActionsYaml _) as [c [e|]]; simpl; [done|].
      by intros b' [= <-].
    + destruct (isNoCharmArchiveFile e); [|done]. by intros b' [= <-].
    + done.
  - unfold readCharmArchive_lxdProfile. proc_simpl.
    destruct (zipOpenFile zipr "lxd-profile.yaml" w) as [[rd|e|p] w1]; simpl.
    + destruct (ReadLXDProfile _) as [c [e|]]; simpl; [done|].
      by intros b' [= <-].
    + destruct (isNoCharmArchiveFile e); [|done]. by intros b' [= <-].
    + done.
  - unfold readCharmArchive_version. proc_simpl.
    destruct (zipOpenFile zipr "version" w) as [[rd|e|p] w1]; simpl.
    + destruct (ReadVersion _) as [c [e|]]; simpl; [done|].
      by intros b' [= <-].
    + destruct (isNoCharmArchiveFile e); [|done]. intros b' [= <-].
      apply sameSource_refl.
    + done.
Qed.

(** The block of "revision": it may leave its reader open, and it does
    not when the container has no such entry. *)
Lemma revision_block_keeps (zipr : zipReadCloser) :
  keepsSource (readCharmArchive_revision zipr) [hEntry "revision"] /\
  ((forall fh, fh ∈ File zipr -> zName fh <> "revision") ->
   keepsSource (readCharmArchive_revision zipr) []).
Proof.
  split.
  - intros b w. unfold readCharmArchive_revision. proc_simpl.
    destruct (ArchiveFacts.zipOpenFile_cases zipr "revision" w)
      as [[rd Hrd]|[e ->]].
    + pose proof Hrd as [Hh _]%zipOpenFile_handle. rewrite Hrd, Hh.
      destruct (Fscan _ _) as [n [e|]]; simpl; (split; [by right|]); [done|].
      by intros b' [= <-].
    + destruct (isNoCharmArchiveFile e); simpl; (split; [by left|]); [|done].
      intros b' [= <-]. apply sameSource_refl.
  - intros Hno b w. unfold readCharmArchive_revision. proc_simpl.
    rewrite ArchiveFacts.zipOpenFile_absent by done. simpl.
    split; [by left|]. intros b' [= <-]. apply sameSource_refl.
Qed.

(** The optional blocks in sequence. *)
Lemma optional_keeps (zipr : zipReadCloser) (extra : list handle) :
  keepsSource (readCharmArchive_revision zipr) extra ->
  keepsSource (readCharmArchive_optional zipr) extra.
Proof.
  intros Hrev.
  destruct (closing_blocks_keep zipr) as (Hc & Hm & Ha & Hl & Hv).
  pose proof (keepsSource_bind _ _ _ _ Hl Hv (or_introl eq_refl)) as K5.
  pose proof (keepsSource_bind _ _ _ _ Hrev K5 (or_intror eq_refl)) as K4.
  pose proof (keepsSource_bind _ _ _ _ Ha K4 (or_introl eq_refl)) as K3.
  pose proof (keepsSource_bind _ _ _ _ Hm K3 (or_introl eq_refl)) as K2.
  pose proof (keepsSource_bind _ _ _ _ Hc K2 (or_introl eq_refl)) as K1.
  simpl in K1. rewrite !app_nil_r in K1.
  eapply keepsSource_ext; [|exact K1].
  intros b w. unfold readCharmArchive_optional, readCharmArchive_after_config.
  unfold mbind, proc_bind, mret, proc_ret.
  destruct (readCharmArchive_config zipr b w) as [[b1|e|p] w1]; [|done|done].
  destruct (readCharmArchive_metrics zipr b1 w1) as [[b2|e|p] w2]; [|done|done].
  destruct (readCharmArchive_actions zipr b2 w2) as [[b3|e|p] w3]; [|done|done].
  destruct (readCharmArchive_revision zipr b3 w3) as [[b4|e|p] w4]; [|done|done].
  destruct (readCharmArchive_lxdProfile zipr b4 w4) as [[b5|e|p] w5];
    [|done|done].
  by destruct (readCharmArchive_version zipr b5 w5) as [[b6|e|p] w6].
Qed.

(** X22. However the optional blocks end, they leave the open handles as
    they were or with the reader of "revision" added, and nothing is
    added when the container has no entry "revision". When they succeed,
    the archive they give has the opener, the path, the metadata and the
    manifest it had before. *)
Theorem optional_blocks_frame (zipr : zipReadCloser) (b : CharmArchive)
    (w : list handle) :
  (snd (readCharmArchive_optional zipr b w) = w \/
   snd (readCharmArchive_optional zipr b w) = hEntry "revision" :: w) /\
  ((forall fh, fh ∈ File zipr -> zName fh <> "revision") ->
   snd (readCharmArchive_optional zipr b w) = w) /\
  (forall b', fst (readCharmArchive_optional zipr b w) = Done b' ->
     sameSource b b').
Proof.
  destruct (revision_block_keeps zipr) as [Hleak Hclean].
  destruct (optional_keeps zipr _ Hleak b w) as [Hw Hb].
  split_and!; [done| |done].
  intros Hno. destruct (optional_keeps zipr _ (Hclean Hno) b w) as [Hw' _].
  by destruct Hw'.
Qed.

(** X23. The manifest block on an archive that already holds a
    manifest. With nil bases it does not look for "manifest.yaml" and
    gives the archive back. Otherwise the entry is required: without it
    the block fails with the not-found error annotated "opening manifest
    file"; with it the block stores what [ReadManifest] returns, closes
    the reader and returns the traced error of [ReadManifest], if any. *)
Theorem manifest_block_cases (zipr : zipReadCloser) (b : CharmArchive)
    (m : Manifest) (w : list handle) :
  manifest b = Some m ->
  (Bases m = None -> readCharmArchive_manifest zipr b w = (Done b, w)) /\
  (Bases m <> None ->
     (forall fh, fh ∈ File zipr -> zName fh <> "manifest.yaml") ->
     readCharmArchive_manifest zipr b w
     = (Failed (annotated "opening manifest file"
                  (noCharmArchiveFile "manifest.yaml")), w)) /\
  (Bases m <> None ->
     forall reader w' m' err,
       zipOpenFile zipr "manifest.yaml" w = (Done reader, w') ->
       ReadManifest (rc_reader reader) = Return (m', err) ->
       readCharmArchive_manifest zipr b w
       = (match err with
          | Some e => Failed (traced e)
          | None => Done (set_manifest b m')
          end, w)).
Proof.
  intros Hm. unfold readCharmArchive_manifest, CharmArchive_Format.
  rewrite Hm. proc_simpl. simpl. split_and!.
  - by intros ->.
  - intros Hb Hno. destruct (Bases m); [|done]. simpl.
    by rewrite ArchiveFacts.zipOpenFile_absent.
  - intros Hb reader w' m' err Hopen Hread.
    pose proof Hopen as [Hh ->]%zipOpenFile_handle.
    destruct (Bases m); [|done]. simpl. rewrite Hopen, Hread, Hh. simpl.
    by destruct err.
Qed.

(** No read gives back an archive: [readCharmArchive] returns an error
    or faults on the nil manifest. *)
Lemma readCharmArchive_result (zo : zipOpener) (w : list handle) :
  (exists err, fst (readCharmArchive zo w) = Failed err) \/
  fst (readCharmArchive zo w) = Panicked nilDereference.
Proof.
  unfold readCharmArchive. proc_simpl.
  assert (forall p, fst (openZip zo w) <> Panicked p) as Hnp.
  { intros p. by destruct (ArchiveFacts.openZip_cases zo w) as [[? ->]|[? ->]]. }
  destruct (openZip zo w) as [[zipr|e|p] w1]; simpl in *.
  - destruct (readCharmArchive_metadata zipr (CharmArchive_zero zo) w1)
      as [[b|e|p] w2] eqn:Hmeta; simpl.
    + pose proof Hmeta as (-> & m & ->)%ArchiveFacts.readCharmArchive_metadata_Done.
      unfold readCharmArchive_manifest, CharmArchive_Format. proc_simpl.
      by right.
    + left. by exists e.
    + exfalso. revert Hmeta. unfold readCharmArchive_metadata. proc_simpl.
      destruct (zipOpenFile zipr "metadata.yaml" w1) as [[rd|e|p'] w3] eqn:Hopen.
      * destruct (ReadMeta _) as [m [e|]]; simpl; done.
      * done.
      * destruct (ArchiveFacts.zipOpenFile_cases zipr "metadata.yaml" w1)
          as [[rd Hrd]|[e He]]; congruence.
  - left. by exists e.
  - by destruct (Hnp p).
Qed.

(** X24. What [ReadCharm] returns. When it returns no charm it returns
    an error. It returns a charm only for a path that is a directory,
    and only a charm whose manifest is not nil, with what [Meta.Check]
    gives for the format of that manifest. For a path that exists and
    is not a directory it returns an error or faults on a nil
    dereference: it never returns a charm read from an archive. *)
Theorem ReadCharm_returns (Charm_Manifest_of : CharmArchive -> option Manifest)
    (ReadCharmDir : string -> proc Charm) (path : string) (w : list handle) :
  (forall oc oe w',
     ReadCharm Charm_Manifest_of ReadCharmDir path w = (Done (oc, oe), w') ->
     (oc = None /\ oe <> None) \/
     (exists c m, oc = Some c /\ os_Stat path = (true, None) /\
        ReadCharmDir path w = (Done c, w') /\ Charm_Manifest c = Some m /\
        Check (Charm_Meta c)
          (if decide (len (Bases m) = 0) then FormatV1 else FormatV2)
        = Return oe)) /\
  (os_Stat path = (false, None) ->
     (exists err w',
        ReadCharm Charm_Manifest_of ReadCharmDir path w
        = (Done (None, Some err), w')) \/
     fst (ReadCharm Charm_Manifest_of ReadCharmDir path w) = Panicked nilDereference).
Proof.
  unfold ReadCharm, ReadCharmArchive. split.
  - intros oc oe w'. destruct (os_Stat path) as [isDir [e|]].
    { intros [= <- <- <-]. by left. }
    proc_simpl. destruct isDir.
    + destruct (ReadCharmDir path w) as [[c|e|p] w1] eqn:Hdir; [| |done].
      * unfold ReadCharm_format. destruct (Charm_Manifest c) as [m|] eqn:Hm;
          [|done]. simpl.
        destruct (Check _ _) as [err|p] eqn:Hcheck; [|done].
        intros [= <- <- <-]. right. by exists c, m.
      * intros [= <- <- <-]. by left.
    + destruct (readCharmArchive_result (newZipOpenerFromPath path) w)
        as [[e He]|Hp];
        destruct (readCharmArchive (newZipOpenerFromPath path) w)
          as [[a|e'|p] w1]; simpl in *; try done.
      intros [= <- <- <-]. by left.
  - intros ->. proc_simpl.
    destruct (readCharmArchive_result (newZipOpenerFromPath path) w)
      as [[e He]|Hp];
      destruct (readCharmArchive (newZipOpenerFromPath path) w)
        as [[a|e'|p] w1]; simpl in *; try done.
    + left. by exists e', w1.
    + right. congruence.
Qed.

End Facts.

(** A deferred call does not change how the body ends; it runs on the
    handles the body leaves. *)
Lemma defer_fst {A} (cleanup : proc unit) (body : proc A) (w : list handle) :
  fst (defer cleanup body w) = fst (body w).
Proof. unfold defer. by destruct (body w). Qed.

Lemma defer_snd {A} (cleanup : proc unit) (body : proc A) (w : list handle) :
  snd (defer cleanup body w) = snd (cleanup (snd (body w))).
Proof. unfold defer. by destruct (body w). Qed.

Section ExpandFacts.
Context `{Platforms} `{yaml.Decoder} `{Documents} `{FileSystem} `{!HostOS}.

Ltac proc_simpl :=
  unfold mbind, proc_bind, mret, proc_ret, fail, check, attempt, lift,
         opened, closed, defer, Close, zipReadCloser_Close in *.

(** [CharmArchive.Manifest] leaves the open handles as they were. *)
Lemma Manifest_handles (a : CharmArchive) (w : list handle) :
  snd (CharmArchive_Manifest a w) = w.
Proof.
  unfold CharmArchive_Manifest.
  unfold mbind, proc_bind, mret, proc_ret, attempt.
  destruct (ArchiveFacts.openZip_cases (zopen a) w) as [[zipr Hopen]|[err Hopen]];
    rewrite Hopen; [|done].
  rewrite defer_snd.
  destruct (ziputil_Find (File zipr) "*") as [paths [err|]]; simpl;
    by rewrite Close_releases.
Qed.

(** X25. [CharmArchive.Manifest] always returns, with the open handles
    as they were. With an error the set is empty. Without one the set
    holds "revision", does not hold ".", and apart from these two holds
    exactly the paths that [ziputil.Find] lists. *)
Theorem Manifest_inventory (a : CharmArchive) (w : list handle) :
  exists s e,
    CharmArchive_Manifest a w = (Done (s, e), w) /\
    match e with
    | Some _ => s = ∅
    | None =>
        "revision" ∈ s /\ ("." ∉ s) /\
        exists zipr w1 paths,
          openZip (zopen a) w = (Done zipr, w1) /\
          ziputil_Find (File zipr) "*" = (paths, None) /\
          forall p, p ∈ s <-> (p ∈ paths \/ p = "revision") /\ p <> "."
    end.
Proof.
  unfold CharmArchive_Manifest.
  unfold mbind, proc_bind, mret, proc_ret, attempt, defer.
  destruct (ArchiveFacts.openZip_cases (zopen a) w) as [[zipr Hopen]|[err Hopen]];
    rewrite Hopen.
  2:{ by exists ∅, (Some err). }
  destruct (ziputil_Find (File zipr) "*") as [paths [err|]] eqn:Hfind;
    rewrite Close_releases.
  - by exists ∅, (Some err).
  - exists ((list_to_set paths ∪ {["revision"]}) ∖ {["."]}), None.
    split; [done|].
    assert (forall p : string,
              p ∈ (list_to_set paths ∪ {["revision"]}) ∖ ({["."]} : gset string)
              <-> (p ∈ paths \/ p = "revision") /\ p <> ".") as Hmem.
    { intros p. rewrite elem_of_difference, elem_of_union, elem_of_list_to_set,
        !elem_of_singleton. done. }
    split_and!.
    + apply Hmem. split; [by right|done].
    + rewrite Hmem. by intros [_ ?].
    + by eexists zipr, _, paths.
Qed.

(** The owner-execute bit of a mode is clear exactly when the mask
    gives zero. *)
Lemma ownerExec_clear (mode : Z) :
  (Z.land mode ownerExec =? 0)%Z = negb (Z.testbit mode 6).
Proof.
  assert (Z.land mode ownerExec = if Z.testbit mode 6 then 64 else 0)%Z as ->.
  { apply Z.bits_inj'. intros n Hn. rewrite Z.land_spec.
    change ownerExec with (2 ^ 6)%Z. rewrite Z.pow2_bits_eqb by done.
    destruct (Z.eqb_spec 6 n) as [<-|Hne].
    - rewrite andb_true_r. destruct (Z.testbit mode 6); [done|].
      by rewrite Z.bits_0.
    - rewrite andb_false_r. destruct (Z.testbit mode 6); [|by rewrite Z.bits_0].
      change 64%Z with (2 ^ 6)%Z. rewrite Z.pow2_bits_eqb by done.
      symmetry. by apply Z.eqb_neq. }
  by destruct (Z.testbit mode 6).
Qed.

(** Setting the owner-execute bit changes that bit only. *)
Lemma ownerExec_set (mode : Z) (i : Z) :
  (0 <= i)%Z ->
  Z.testbit (Z.lor mode ownerExec) i = (i =? 6)%Z || Z.testbit mode i.
Proof.
  intros Hi. rewrite Z.lor_spec. change ownerExec with (2 ^ 6)%Z.
  rewrite Z.pow2_bits_eqb by done. rewrite orb_comm. by rewrite Z.eqb_sym.
Qed.

Lemma IsDir_testbit (mode : Z) : IsDir mode = Z.testbit mode 31.
Proof.
  unfold IsDir.
  assert (Z.land mode ModeDir = if Z.testbit mode 31 then 2 ^ 31 else 0)%Z as ->.
  { apply Z.bits_inj'. intros n Hn. rewrite Z.land_spec.
    change ModeDir with (2 ^ 31)%Z. rewrite Z.pow2_bits_eqb by done.
    destruct (Z.eqb_spec 31 n) as [<-|Hne].
    - rewrite andb_true_r. destruct (Z.testbit mode 31).
      + by rewrite Z.pow2_bits_eqb.
      + by rewrite Z.bits_0.
    - rewrite andb_false_r. destruct (Z.testbit mode 31); [|by rewrite Z.bits_0].
      rewrite Z.pow2_bits_eqb by done. symmetry. by apply Z.eqb_neq. }
  by destruct (Z.testbit mode 31).
Qed.

(** X26. The function built by [fixHookFunc] asks for a change of mode
    exactly when the walk reports no error, the path is the hooks
    directory itself or not a directory, the last element of the path
    is a hook name that the map sends to true, and the owner-execute bit
    of the mode is clear; the change is on that path, to the mode with
    that bit set. *)
Theorem fixHook_chmod_iff (hooksDir : string) (hookNames : gmap string bool)
    (path : string) (info : option Z) (err : option error)
    (path' : string) (mode' : Z) :
  fixHookFunc hooksDir hookNames path info err = Return (walkChmod path' mode')
  <->
  exists mode,
    err = None /\ info = Some mode /\
    (path = hooksDir \/ IsDir mode = false) /\
    hookNames !! filepath_Base path = Some true /\
    Z.testbit mode 6 = false /\
    path' = path /\ mode' = Z.lor mode ownerExec.
Proof.
  unfold fixHookFunc. split.
  - destruct err as [e|]; [done|]. destruct info as [mode|]; [|done]. simpl.
    destruct (bool_decide (path <> hooksDir) && IsDir mode) eqn:Hskip; [done|].
    destruct (hookNames !! filepath_Base path) as [[|]|] eqn:Hname;
      simpl; [|done|done].
    rewrite ownerExec_clear.
    destruct (Z.testbit mode 6) eqn:Hbit; simpl; [done|].
    intros [= <- <-]. exists mode. split_and!; try done.
    apply andb_false_iff in Hskip as [Hp|Hd]; [|by right].
    left. apply bool_decide_eq_false in Hp. by destruct (decide (path = hooksDir)).
  - intros (mode & -> & -> & Hwhere & Hname & Hbit & -> & ->). simpl.
    assert (bool_decide (path <> hooksDir) && IsDir mode = false) as ->.
    { destruct Hwhere as [->| ->]; [|by rewrite andb_false_r].
      by rewrite bool_decide_eq_false_2 by (intros Hne; by apply Hne). }
    rewrite Hname. simpl. by rewrite ownerExec_clear, Hbit.
Qed.

(** X27. The mode asked for by [fixHookFunc] differs from the mode of
    the file in the owner-execute bit only, so it is a 32-bit mode when
    the mode of the file is one and it is a directory exactly when the
    file is one; with that mode, the function asks for nothing more. *)
Theorem fixHook_sets_one_bit (hooksDir : string) (hookNames : gmap string bool)
    (path : string) (mode : Z) (path' : string) (mode' : Z) :
  fixHookFunc hooksDir hookNames path (Some mode) None
    = Return (walkChmod path' mode') ->
  (forall i, (0 <= i)%Z ->
     Z.testbit mode' i = (i =? 6)%Z || Z.testbit mode i) /\
  ((0 <= mode < 2 ^ 32)%Z -> (0 <= mode' < 2 ^ 32)%Z) /\
  IsDir mode' = IsDir mode /\
  fixHookFunc hooksDir hookNames path (Some mode') None
    = Return (walkReturn None).
Proof.
  intros Hcall.
  pose proof Hcall as (m & _ & [= <-] & Hwhere & Hname & Hbit & -> & ->)%fixHook_chmod_iff.
  split_and!.
  - intros i Hi. by apply ownerExec_set.
  - intros [Hlo Hhi]. split.
    + apply Z.lor_nonneg. split; [done|]. by compute.
    + destruct (decide (Z.lor mode ownerExec = 0%Z)) as [->|Hnz]; [done|].
      apply Z.log2_lt_pow2.
      { assert (0 <= Z.lor mode ownerExec)%Z
          by (apply Z.lor_nonneg; split; [done|by compute]). lia. }
      rewrite Z.log2_lor by (done || by compute).
      apply Z.max_lub_lt; [|by compute].
      destruct (decide (mode = 0%Z)) as [->|Hm]; [by compute|].
      apply Z.log2_lt_pow2; lia.
  - rewrite !IsDir_testbit. by rewrite ownerExec_set.
  - unfold fixHookFunc. simpl.
    rewrite IsDir_testbit, ownerExec_set, <- IsDir_testbit by done. simpl.
    assert (bool_decide (path <> hooksDir) && IsDir mode = false) as ->.
    { destruct Hwhere as [->| ->]; [|by rewrite andb_false_r].
      by rewrite bool_decide_eq_false_2 by (intros Hne; by apply Hne). }
    rewrite Hname. simpl. rewrite ownerExec_clear, ownerExec_set by done.
    done.
Qed.

(** However [ExpandTo] ends, the container it opened is closed again;
    the one handle it can leave open is the revision file, and only
    with an error of writing or syncing it. *)
Lemma ExpandTo_leaves (a : CharmArchive) (dir : string) (w : list handle) :
  let revision_path := filepath_Join dir "revision" in
  snd (ExpandTo a dir w) = w \/
  (snd (ExpandTo a dir w) = hFile revision_path :: w /\
   exists err,
     fst (ExpandTo a dir w) = Failed err /\
     (File_Write revision_path (pretty (revision a)) = Some err \/
      File_Sync revision_path = Some err)).
Proof.
  intros revision_path.
  remember (ExpandTo a dir w) as res eqn:Hres.
  unfold ExpandTo in Hres. unfold mbind at 1, proc_bind at 1 in Hres.
  destruct (ArchiveFacts.openZip_cases (zopen a) w) as [[zipr Hopen]|[err Hopen]];
    rewrite Hopen in Hres; [|left; by subst res].
  assert (snd (zipReadCloser_Close zipr
                 (hFile revision_path
                  :: match Closer zipr with Some h => h :: w | None => w end))
          = hFile revision_path :: w) as Hleak.
  { unfold zipReadCloser_Close, closed.
    destruct (Closer zipr) as [h|]; simpl; [|done].
    case_decide as Heq; [by rewrite Heq|]. by rewrite decide_True. }
  pose proof (Close_releases zipr w) as Hclose.
  set (w1 := match Closer zipr with Some h => h :: w | None => w end) in *.
  fold revision_path in Hres.
  match type of Hres with
  | context [defer _ ?m w1] => set (body := m) in Hres
  end.
  assert (fst res = fst (body w1)) as Hfst by (subst res; apply defer_fst).
  assert (snd res = snd (zipReadCloser_Close zipr (snd (body w1)))) as Hsnd
    by (subst res; apply defer_snd).
  rewrite Hsnd. clear Hres.
  assert (snd (body w1) = w1 \/
          (snd (body w1) = hFile revision_path :: w1 /\
           exists err,
             fst (body w1) = Failed err /\
             (File_Write revision_path (pretty (revision a)) = Some err \/
              File_Sync revision_path = Some err)))
    as [Hb|(Hb & err & Hf & Hcause)].
  { unfold body. proc_simpl.
    destruct (ziputil_ExtractAll (File zipr) dir) as [e|]; [by left|].
    destruct (Hooks (meta a)) as [hookNames|p]; [|by left].
    destruct (filepath_Walk _ _) as [[e|]|p]; [| |by left].
    1: destruct (os_IsNotExist e); simpl; [|by left].
    all: destruct (os_Create revision_path) as [e1|]; [by left|].
    all: destruct (File_Write revision_path _) as [e2|] eqn:Hwrite;
      [right; split; [done|]; exists e2; split; [done|by left]|].
    all: destruct (File_Sync revision_path) as [e3|] eqn:Hsync;
      [right; split; [done|]; exists e3; split; [done|by right]|].
    all: simpl; rewrite decide_True by done.
    all: left; by destruct (File_Close revision_path). }
  - left. by rewrite Hb, Hclose.
  - right. rewrite Hb, Hleak. split; [done|]. exists err.
    by rewrite Hfst.
Qed.

(** Once the revision file is created, [ExpandTo] ends as writing,
    syncing and closing it decide. *)
Lemma ExpandTo_after_create (a : CharmArchive) (dir : string) (w : list handle)
    (zipr : zipReadCloser) (w1 : list handle) (hookNames : gmap string bool)
    (walkErr : option error) :
  let revision_path := filepath_Join dir "revision" in
  let hooksDir := filepath_Join dir "hooks" in
  openZip (zopen a) w = (Done zipr, w1) ->
  ziputil_ExtractAll (File zipr) dir = None ->
  Hooks (meta a) = Return hookNames ->
  filepath_Walk hooksDir (fixHookFunc hooksDir hookNames) = Return walkErr ->
  (forall e, walkErr = Some e -> os_IsNotExist e = true) ->
  os_Create revision_path = None ->
  ExpandTo a dir w
  = match File_Write revision_path (pretty (revision a)) with
    | Some err => (Failed err, hFile revision_path :: w)
    | None =>
        match File_Sync revision_path with
        | Some err => (Failed err, hFile revision_path :: w)
        | None =>
            (match File_Close revision_path with
             | Some err => Failed err
             | None => Done tt
             end, w)
        end
    end.
Proof.
  intros revision_path hooksDir Hopen Hext Hhooks Hwk Hne Hc.
  destruct (ArchiveFacts.openZip_cases (zopen a) w) as [[z Hz]|[e He]];
    [|congruence].
  rewrite Hz in Hopen. injection Hopen as -> <-.
  unfold ExpandTo. fold revision_path hooksDir. proc_simpl.
  rewrite Hz, Hext, Hhooks, Hwk.
  destruct walkErr as [e|]; [rewrite (Hne e eq_refl); simpl|];
    rewrite Hc;
    (destruct (File_Write revision_path (pretty (revision a))) as [e1|];
      [|destruct (File_Sync revision_path) as [e2|];
        [|destruct (File_Close revision_path) as [e3|]]]);
    destruct (Closer zipr) as [h|]; simpl;
    repeat case_decide; simplify_eq; try done;
    simpl; by rewrite decide_True.
Qed.

(** X28. However [ExpandTo] ends, the container it opened is closed
    again. The revision file it creates is closed too, except when
    writing or syncing it fails: then [ExpandTo] returns that error and
    the file stays open, and the file stays open in no other case. *)
Theorem ExpandTo_handles (a : CharmArchive) (dir : string) (w : list handle) :
  let revision_path := filepath_Join dir "revision" in
  let hooksDir := filepath_Join dir "hooks" in
  (snd (ExpandTo a dir w) = w \/
   snd (ExpandTo a dir w) = hFile revision_path :: w) /\
  (forall zipr w1 hookNames walkErr,
     openZip (zopen a) w = (Done zipr, w1) ->
     ziputil_ExtractAll (File zipr) dir = None ->
     Hooks (meta a) = Return hookNames ->
     filepath_Walk hooksDir (fixHookFunc hooksDir hookNames) = Return walkErr ->
     (forall e, walkErr = Some e -> os_IsNotExist e = true) ->
     os_Create revision_path = None ->
     (forall err,
        File_Write revision_path (pretty (revision a)) = Some err ->
        ExpandTo a dir w = (Failed err, hFile revision_path :: w)) /\
     (forall err,
        File_Write revision_path (pretty (revision a)) = None ->
        File_Sync revision_path = Some err ->
        ExpandTo a dir w = (Failed err, hFile revision_path :: w)) /\
     (File_Write revision_path (pretty (revision a)) = None ->
      File_Sync revision_path = None ->
      snd (ExpandTo a dir w) = w)) /\
  (snd (ExpandTo a dir w) = hFile revision_path :: w ->
   exists err,
     fst (ExpandTo a dir w) = Failed err /\
     (File_Write revision_path (pretty (revision a)) = Some err \/
      File_Sync revision_path = Some err)).
Proof.
  intros revision_path hooksDir. split_and!.
  - destruct (ExpandTo_leaves a dir w) as [Hw|[Hw _]]; [by left|by right].
  - intros zipr w1 hookNames walkErr Hopen Hext Hhooks Hwk Hne Hc.
    pose proof (ExpandTo_after_create a dir w zipr w1 hookNames walkErr
                  Hopen Hext Hhooks Hwk Hne Hc) as Heq.
    fold revision_path in Heq. split_and!.
    + intros err Hwrite. by rewrite Heq, Hwrite.
    + intros err Hwrite Hsync. by rewrite Heq, Hwrite, Hsync.
    + intros Hwrite Hsync. by rewrite Heq, Hwrite, Hsync.
  - intros Hopen. destruct (ExpandTo_leaves a dir w) as [Hw|[_ Hcause]];
      [|done].
    rewrite Hw in Hopen. exfalso.
    apply (f_equal length) in Hopen. simpl in Hopen. lia.
Qed.

(** X29. [ExpandTo] returns the nil error exactly when the container
    opens, the extraction succeeds, the hooks of the metadata are read,
    the walk over the hooks directory ends without error or with an
    error that [os.IsNotExist] accepts, and creating, writing, syncing
    and closing the revision file, written with the decimal rendering of
    the revision of the archive, all succeed. *)
Theorem ExpandTo_succeeds (a : CharmArchive) (dir : string) (w : list handle) :
  let revision_path := filepath_Join dir "revision" in
  let hooksDir := filepath_Join dir "hooks" in
  fst (ExpandTo a dir w) = Done tt <->
  exists zipr w1 hookNames walkErr,
    openZip (zopen a) w = (Done zipr, w1) /\
    ziputil_ExtractAll (File zipr) dir = None /\
    Hooks (meta a) = Return hookNames /\
    filepath_Walk hooksDir (fixHookFunc hooksDir hookNames) = Return walkErr /\
    (forall e, walkErr = Some e -> os_IsNotExist e = true) /\
    os_Create revision_path = None /\
    File_Write revision_path (pretty (revision a)) = None /\
    File_Sync revision_path = None /\
    File_Close revision_path = None.
Proof.
  intros revision_path hooksDir. unfold ExpandTo.
  fold revision_path hooksDir. split.
  - proc_simpl.
    destruct (openZip (zopen a) w) as [[zipr|e|p] w1]; [|done|done].
    destruct (ziputil_ExtractAll (File zipr) dir) as [e|] eqn:Hext; [done|].
    destruct (Hooks (meta a)) as [hookNames|p] eqn:Hhooks; [|done].
    destruct (filepath_Walk _ _) as [walkErr|p] eqn:Hwk; [|done].
    destruct walkErr as [e|].
    + destruct (os_IsNotExist e) eqn:Hne; simpl; [|done].
      destruct (os_Create revision_path) as [e1|] eqn:Hc; [done|].
      destruct (File_Write _ _) as [e2|] eqn:Hwr; [done|].
      destruct (File_Sync _) as [e3|] eqn:Hs; [done|]. simpl.
      destruct (File_Close _) as [e4|] eqn:Hcl; [done|].
      intros _. exists zipr, w1, hookNames, (Some e).
      split_and!; try done. by intros e' [= <-].
    + destruct (os_Create revision_path) as [e1|] eqn:Hc; [done|].
      destruct (File_Write _ _) as [e2|] eqn:Hwr; [done|].
      destruct (File_Sync _) as [e3|] eqn:Hs; [done|]. simpl.
      destruct (File_Close _) as [e4|] eqn:Hcl; [done|].
      intros _. by exists zipr, w1, hookNames, None.
  - intros (zipr & w1 & hookNames & walkErr & Hopen & Hext & Hhooks & Hwk
            & Hne & Hc & Hwr & Hs & Hcl).
    proc_simpl. rewrite Hopen, Hext, Hhooks, Hwk.
    destruct walkErr as [e|].
    + rewrite (Hne e eq_refl). simpl. rewrite Hc, Hwr, Hs. simpl.
      by rewrite Hcl.
    + rewrite Hc, Hwr, Hs. simpl. by rewrite Hcl.
Qed.

End ExpandFacts.

End ArchiveCoverage.

(** ** Handles: what every operation gives back *)

Module HandleFacts.

Import systems charm.

Section Facts.
Context `{Platforms} `{yaml.Decoder} `{Documents} `{FileSystem} `{!HostOS}.

(** C9. Every operation of the archive ends, on every path, a fault
    included, with the container it opened closed and with no reader on
    an entry left open. [readCharmArchive] and the two readers built on
    it end with the open handles they started with; so do the
    "metadata.yaml" block, for the reader it opens, [getActions] on the
    entries of a container, and [CharmArchive.Manifest]. [ExpandTo] ends
    with the handles it started with or with one more, the revision
    file it created, which is neither the container nor a reader on an
    entry. *)
Theorem handles_closed_on_every_path :
  (forall zo w, snd (readCharmArchive zo w) = w) /\
  (forall path w, snd (ReadCharmArchive path w) = w) /\
  (forall r size w, snd (ReadCharmArchiveFromReader r size w) = w) /\
  (forall zipr b w, snd (readCharmArchive_metadata zipr b w) = w) /\
  (forall zipr w,
     snd (getActions (fun file => zipOpenFile zipr file) isNoCharmArchiveFile w)
     = w) /\
  (forall a w, snd (CharmArchive_Manifest a w) = w) /\
  (forall a dir w,
     snd (ExpandTo a dir w) = w \/
     snd (ExpandTo a dir w) = hFile (filepath_Join dir "revision") :: w).
Proof.
  split_and!.
  - apply ArchiveFacts.readCharmArchive_handles.
  - intros path w. unfold ReadCharmArchive, mbind, proc_bind, mret, proc_ret.
    pose proof (ArchiveFacts.readCharmArchive_handles
                  (newZipOpenerFromPath path) w) as Hw.
    by destruct (readCharmArchive (newZipOpenerFromPath path) w) as [[b|e|p] w'].
  - intros r size w. apply ArchiveFacts.readCharmArchive_handles.
  - intros zipr b w.
    by destruct (ArchiveFacts.sibling_blocks_close zipr b w) as (Hm & _).
  - intros zipr w.
    destruct (ArchiveFacts.sibling_blocks_close zipr
                (CharmArchive_zero (zipPathOpener "")) w)
      as (_ & _ & _ & Ha & _).
    revert Ha. unfold readCharmArchive_actions, mbind, proc_bind, mret, proc_ret.
    by destruct (getActions _ _ w) as [[x|e|p] w'].
  - apply ArchiveCoverage.Manifest_handles.
  - intros a dir w.
    destruct (ArchiveCoverage.ExpandTo_leaves a dir w) as [Hw|[Hw _]];
      [by left|by right].
Qed.

End Facts.

End HandleFacts.

(** ** The further properties on concrete inputs *)

Module CoverageExamples.

Import systems charm.

#[local] Existing Instances Sample.types Sample.channels Sample.platforms
  Sample.decoder Sample.documents Sample.files Sample.host.

(** A file resource with the filename a.tgz. *)
Lemma ParseMeta_fields_witness :
  let meta := Sample.resourceMeta "r" 1 "a.tgz" in
  resource.Name meta = "r" /\
  resource.Type_ meta = 1%Z /\
  resource.Path meta = "a.tgz" /\
  resource.Comment meta = "".
Proof.
  apply (ResourceCoverage.ParseMeta_fields "r"
           [("type", VString "file"); ("filename", VString "a.tgz")]
           (Sample.resourceMeta "r" 1 "a.tgz")).
  reflexivity.
Defined.

Lemma parsed_valid_resource_witness :
  "r" <> "" /\
  exists rMap s p,
    VMapS [("type", VString "file"); ("filename", VString "a.tgz")] = VMapS rMap /\
    resource.index rMap "type" = VString s /\
    fst (resource.ParseType s) <> resource.typeUnknown /\
    resource.index rMap "filename" = VString p /\ p <> "".
Proof.
  apply (ResourceCoverage.parsed_valid_resource "r"
           (VMapS [("type", VString "file"); ("filename", VString "a.tgz")])
           (Sample.resourceMeta "r" 1 "a.tgz")); reflexivity.
Defined.

Lemma file_path_has_no_separator_witness :
  resource.Validate (Sample.resourceMeta "x" 1 "a.tgz") = None <->
  forall pre post, "a.tgz" <> pre +:+ "/" +:+ post.
Proof.
  apply (ResourceCoverage.file_path_has_no_separator
           (Sample.resourceMeta "x" 1 "a.tgz"));
    try reflexivity; discriminate.
Defined.

(** A manifest with one valid and one invalid base. *)
Lemma Manifest_Validate_iff_witness :
  Validate (Sample.manifestOf (Some [Sample.base "ubuntu" "stable";
                                     Sample.base "" "stable"]))
  = Some (errorString "invalid base: empty file").
Proof.
  destruct (ManifestCoverage.Manifest_Validate_iff
              (Sample.manifestOf (Some [Sample.base "ubuntu" "stable";
                                        Sample.base "" "stable"])))
    as [_ [Hok|Hbad]]; [discriminate Hok|exact Hbad].
Defined.

Lemma parseBases_success_witness :
  Forall2 builtFrom [Sample.ubuntuStable] [Sample.base "ubuntu" "stable"].
Proof.
  apply (ManifestCoverage.parseBases_success [Sample.ubuntuStable]
           (Some [Sample.base "ubuntu" "stable"])).
  reflexivity.
Defined.

(** A base without a name does not validate. *)
Lemma manifest_error_without_value_witness :
  parseBases (VList [Sample.unnamedBase])
    = Return (None, Some (traced (notValid "base without name"))) /\
  (None : slice Base) = None.
Proof.
  destruct ManifestCoverage.manifest_error_without_value as (Hparse & _ & _).
  split; [reflexivity|].
  apply (Hparse (VList [Sample.unnamedBase]) None
           (traced (notValid "base without name"))).
  reflexivity.
Defined.

Lemma ReadManifest_validates_witness : Validate Sample.ubuntuManifest = None.
Proof.
  apply (ManifestCoverage.ReadManifest_validates
           (Sample.reader Sample.ubuntuDocument) Sample.ubuntuManifest None).
  reflexivity.
Defined.

Lemma manifest_parse_never_faults_witness :
  exists mo err, ReadManifest (Sample.reader Sample.ubuntuDocument) = Return (mo, err).
Proof.
  destruct ManifestCoverage.manifest_parse_never_faults as [_ Hread].
  apply Hread.
Defined.

Lemma parsed_names_are_known_witness :
  Forall knownName [Sample.base "ubuntu" "stable"].
Proof.
  apply (ManifestCoverage.parsed_names_are_known
           (Sample.reader Sample.ubuntuDocument) Sample.ubuntuManifest None).
  reflexivity.
Defined.

(** A mapping that has no key at all. *)
Lemma bases_must_be_a_list_witness :
  UnmarshalYAML NewManifest (yaml.decodeInto (VMapI []))
  = Return (NewManifest, Some (annotated "coerce" (schemaError "list" []))).
Proof.
  apply (ManifestCoverage.bases_must_be_a_list NewManifest
           (yaml.decodeInto (VMapI [])) []).
  - reflexivity.
  - intros l. simpl. discriminate.
Defined.

Lemma SeriesForCharm_stable_witness :
  SeriesForCharm "bionic" (Some ["bionic"; "focal"]) = ("bionic", None).
Proof.
  destruct (CharmCoverage.SeriesForCharm_stable ""
              "bionic" (Some ["bionic"; "focal"])) as (_ & _ & Hagain).
  - reflexivity.
  - exact Hagain.
Defined.

Lemma SeriesForCharm_errors_witness :
  IsMissingSeriesError
    (Some (unsupportedSeriesError "xenial" (Some ["bionic"]))) = false /\
  IsUnsupportedSeriesError
    (Some (unsupportedSeriesError "xenial" (Some ["bionic"]))) = true.
Proof.
  destruct (CharmCoverage.SeriesForCharm_errors "xenial" "" (Some ["bionic"])
              (unsupportedSeriesError "xenial" (Some ["bionic"])))
    as [_ [(_ & Hreq & _)|(_ & _ & _ & _ & Hmiss & Hunsup)]].
  - reflexivity.
  - discriminate Hreq.
  - split; [exact Hmiss|exact Hunsup].
Defined.

(** Three bases with distinct strings. *)
Lemma ComputedSeries_distinct_witness :
  elems (ComputedSeries_range
           [Sample.base "ubuntu" "stable"; Sample.base "centos" "edge";
            Sample.base "ubuntu" "edge"] None ∅)
  = ["ubuntu/stable"; "centos/edge"; "ubuntu/edge"].
Proof.
  destruct (CharmCoverage.ComputedSeries_distinct
              [Sample.base "ubuntu" "stable"; Sample.base "centos" "edge";
               Sample.base "ubuntu" "edge"]) as [_ [_ Hsame]].
  apply Hsame. apply (bool_decide_unpack _). by vm_compute.
Defined.

Lemma declared_bases_are_supported_witness :
  SeriesForCharm "centos/edge"
    (ComputedSeries_range
       [Sample.base "ubuntu" "stable"; Sample.base "centos" "edge"] None ∅)
  = ("centos/edge", None).
Proof.
  destruct (CharmCoverage.declared_bases_are_supported
              (Sample.base "ubuntu" "stable") [Sample.base "centos" "edge"])
    as [_ Hany].
  apply (Hany (Sample.base "centos" "edge")).
  - apply list_elem_of_In. simpl. tauto.
  - discriminate.
Defined.

(** An archive and a charm that hold the series focal and a manifest
    whose bases are an empty slice that is not nil. *)
Lemma ComputedSeries_agree_witness :
  let a := Sample.archiveHolding (Some ["focal"]) (Sample.manifestOf (Some [])) in
  let c := Sample.charmWith (Some (Sample.manifestOf (Some []))) (Some ["focal"]) in
  CharmArchive_ComputedSeries a = Return None /\
  ComputedSeries c = Return (Some ["focal"]).
Proof.
  intros a c.
  destruct (CharmCoverage.ComputedSeries_agree a c (Sample.manifestOf (Some []))
              (Sample.metaOf (Some ["focal"])) eq_refl eq_refl eq_refl eq_refl)
    as [_ Hempty].
  apply Hempty. reflexivity.
Defined.

(** A container with two entries of the same name. *)
Lemma zipOpenFile_first_match_witness :
  zipOpenFile
    (Sample.container [Sample.entry "a" "1"; Sample.entry "b" "2";
                       Sample.entry "b" "3"]) "b" []
  = (Done {| rc_handle := hEntry "b"; rc_reader := Sample.reader "2" |},
     [hEntry "b"]).
Proof.
  apply (ArchiveCoverage.zipOpenFile_first_match
           (Sample.container [Sample.entry "a" "1"; Sample.entry "b" "2";
                              Sample.entry "b" "3"]) "b"
           [Sample.entry "a" "1"] [Sample.entry "b" "3"] (Sample.entry "b" "2")).
  - reflexivity.
  - intros f Hin%list_elem_of_In. simpl in Hin. destruct Hin as [<-|[]].
    discriminate.
  - reflexivity.
Defined.

Lemma openZip_then_Close_witness :
  zipReadCloser_Close (Sample.container [Sample.entry "metadata.yaml" "focal"]) []
    = (Done tt, []) /\
  Closer (Sample.container [Sample.entry "metadata.yaml" "focal"]) = None.
Proof.
  destruct (ArchiveCoverage.openZip_then_Close
              (Sample.opener [Sample.entry "metadata.yaml" "focal"]) [])
    as (Hopen & _ & _).
  apply (Hopen (Sample.container [Sample.entry "metadata.yaml" "focal"]) []).
  reflexivity.
Defined.

(** A container whose actions.yaml does not parse. *)
Lemma getActions_cases_witness :
  getActions
    (zipOpenFile (Sample.container [Sample.entry "actions.yaml" "!"]))
    isNoCharmArchiveFile []
  = (Failed (foreign "malformed document"), []).
Proof.
  destruct (ArchiveCoverage.getActions_cases
              (zipOpenFile (Sample.container [Sample.entry "actions.yaml" "!"]))
              isNoCharmArchiveFile []) as (Hopen & _ & _).
  exact (Hopen {| rc_handle := hEntry "actions.yaml";
                  rc_reader := Sample.reader "!" |}
               [hEntry "actions.yaml"] eq_refl).
Defined.

(** A container that holds the metadata only. *)
Lemma optional_entries_absent_witness :
  let b := Sample.archiveWith None in
  readCharmArchive_optional
    (Sample.container [Sample.entry "metadata.yaml" "focal"]) b []
  = (Done (set_lxdProfile
             (set_actions (set_config b (Some NewConfig)) (Some NewActions))
             (Some NewLXDProfile)), []).
Proof.
  intros b.
  apply (ArchiveCoverage.optional_entries_absent
           (Sample.container [Sample.entry "metadata.yaml" "focal"]) b []).
  intros fh Hin%list_elem_of_In. simpl in Hin. destruct Hin as [<-|[]].
  intros Hopt%list_elem_of_In. simpl in Hopt. intuition discriminate.
Defined.

Lemma unopenable_entry_is_fatal_witness :
  readCharmArchive_metrics
    (Sample.container [Sample.brokenEntry "metrics.yaml"])
    (Sample.archiveWith None) []
  = (Failed (foreign "bad entry"), []).
Proof.
  destruct (ArchiveCoverage.unopenable_entry_is_fatal
              (Sample.container [Sample.brokenEntry "metrics.yaml"])
              (Sample.archiveWith None) [] [] (foreign "bad entry") eq_refl)
    as (_ & Hmetrics & _).
  apply Hmetrics. reflexivity.
Defined.

Lemma malformed_entry_is_fatal_witness :
  readCharmArchive_metrics
    (Sample.container [Sample.entry "metrics.yaml" "!"])
    (Sample.archiveWith None) []
  = (Failed (foreign "malformed document"), []).
Proof.
  destruct (ArchiveCoverage.malformed_entry_is_fatal
              (Sample.container [Sample.entry "metrics.yaml" "!"])
              (Sample.archiveWith None) [] [hEntry "metrics.yaml"]
              {| rc_handle := hEntry "metrics.yaml";
                 rc_reader := Sample.reader "!" |}
              (foreign "malformed document")) as (Hmetrics & _).
  apply (Hmetrics None); reflexivity.
Defined.

Lemma optional_blocks_frame_witness :
  snd (readCharmArchive_optional
         (Sample.container [Sample.entry "metadata.yaml" "focal"])
         (Sample.archiveWith None) []) = [].
Proof.
  destruct (ArchiveCoverage.optional_blocks_frame
              (Sample.container [Sample.entry "metadata.yaml" "focal"])
              (Sample.archiveWith None) []) as (_ & Hclean & _).
  apply Hclean.
  intros fh Hin%list_elem_of_In. simpl in Hin. destruct Hin as [<-|[]].
  discriminate.
Defined.

(** An archive that holds a manifest with nil bases. *)
Lemma manifest_block_cases_witness :
  let b := Sample.archiveWith (Some (Sample.manifestOf None)) in
  readCharmArchive_manifest (Sample.container []) b [] = (Done b, []).
Proof.
  intros b.
  destruct (ArchiveCoverage.manifest_block_cases (Sample.container []) b
              (Sample.manifestOf None) [] eq_refl) as (Hnil & _).
  apply Hnil. reflexivity.
Defined.

(** A directory with a V1 charm. *)
Lemma ReadCharm_returns_witness :
  exists c m,
    Some (Sample.charmWith (Some (Sample.manifestOf None)) (Some ["focal"]))
      = Some c /\
    os_Stat "/charm" = (true, None) /\
    Sample.readDir "/charm" [] = (Done c, []) /\
    Charm_Manifest c = Some m /\
    Check (Charm_Meta c)
      (if decide (len (Bases m) = 0) then FormatV1 else FormatV2)
    = Return None.
Proof.
  destruct (ArchiveCoverage.ReadCharm_returns BasesManifest Sample.readDir
              "/charm" []) as [Hdone _].
  destruct (Hdone
              (Some (Sample.charmWith (Some (Sample.manifestOf None))
                       (Some ["focal"])))
              None [] eq_refl) as [[Hnone _]|Hsome].
  - discriminate Hnone.
  - exact Hsome.
Defined.

(** The inventory of a container that lists "." among its paths. *)
Lemma Manifest_inventory_witness :
  exists s e,
    CharmArchive_Manifest
      (Sample.archiveOf [Sample.entry "." ""; Sample.entry "metadata.yaml" "focal"] 7)
      [] = (Done (s, e), []) /\
    match e with
    | Some _ => s = ∅
    | None =>
        "revision" ∈ s /\ ("." ∉ s) /\
        exists zipr w1 paths,
          openZip (Sample.opener [Sample.entry "." "";
                                  Sample.entry "metadata.yaml" "focal"]) []
            = (Done zipr, w1) /\
          ziputil_Find (File zipr) "*" = (paths, None) /\
          forall p, p ∈ s <-> (p ∈ paths \/ p = "revision") /\ p <> "."
    end.
Proof.
  exact (ArchiveCoverage.Manifest_inventory
           (Sample.archiveOf [Sample.entry "." "";
                              Sample.entry "metadata.yaml" "focal"] 7) []).
Defined.

(** The hook install with the mode 0644. *)
Lemma fixHook_chmod_iff_witness :
  fixHookFunc "/c/hooks" Sample.hooks "/c/hooks/install" (Some 420%Z) None
  = Return (walkChmod "/c/hooks/install" 484).
Proof.
  apply (ArchiveCoverage.fixHook_chmod_iff "/c/hooks" Sample.hooks
           "/c/hooks/install" (Some 420%Z) None "/c/hooks/install" 484).
  exists 420%Z. split_and!; try reflexivity. right. reflexivity.
Defined.

Lemma fixHook_sets_one_bit_witness :
  fixHookFunc "/c/hooks" Sample.hooks "/c/hooks/install" (Some 484%Z) None
  = Return (walkReturn None).
Proof.
  destruct (ArchiveCoverage.fixHook_sets_one_bit "/c/hooks" Sample.hooks
              "/c/hooks/install" 420 "/c/hooks/install" 484)
    as (_ & _ & _ & Hagain).
  - reflexivity.
  - exact Hagain.
Defined.

(** Expanding an archive of revision 13, which the sample host fails to
    write. *)
Lemma ExpandTo_handles_witness :
  ExpandTo (Sample.archiveOf [Sample.entry "metadata.yaml" "focal"] 13) "/c" []
  = (Failed (foreign "no space left on device"), [hFile "/c/revision"]).
Proof.
  destruct (ArchiveCoverage.ExpandTo_handles
              (Sample.archiveOf [Sample.entry "metadata.yaml" "focal"] 13)
              "/c" []) as (_ & Hreach & _).
  assert (forall e : error, None = Some e -> os_IsNotExist e = true) as Hne
    by (intros e He; discriminate He).
  destruct (Hreach (Sample.container [Sample.entry "metadata.yaml" "focal"])
              [] Sample.hooks None eq_refl eq_refl eq_refl eq_refl Hne eq_refl)
    as (Hwrite & _ & _).
  apply Hwrite. reflexivity.
Defined.

(** Expanding into a directory without hooks. *)
Lemma ExpandTo_succeeds_witness :
  fst (ExpandTo (Sample.archiveOf [Sample.entry "metadata.yaml" "focal"] 7)
         "/missing" []) = Done tt.
Proof.
  apply (ArchiveCoverage.ExpandTo_succeeds
           (Sample.archiveOf [Sample.entry "metadata.yaml" "focal"] 7)
           "/missing" []).
  exists (Sample.container [Sample.entry "metadata.yaml" "focal"]), [],
    Sample.hooks, (Some (foreign "no such file or directory")).
  split_and!; try reflexivity.
  intros e [= <-]. reflexivity.
Defined.

End CoverageExamples.
